(** * The distributed point table of core/table/distributed_table.h

    A shallow embedding of [core::table::DistributedTable] and a
    verification of its documented behaviour.

    The class composes five objects reached through pointers (the inbox,
    the outbox, the owned table, the array of entry counts and the tree),
    allocates them either in the shared arena [global_m_file_] or on the
    process heap, and talks to its peers through boost::mpi communicators.
    The embedding has the same three layers:

    - a memory of typed cells addressed by handles, with the arena's
      construct/destroy operations and the process heap's new/delete;
    - a small free monad of MPI events (send, blocking receive, all-gather)
      over explicit state passing;
    - the methods of the class, written statement by statement in that
      monad. *)

From stdpp Require Import gmap strings list fin_maps.
From Stdlib Require Import ZArith Lia.

Open Scope Z_scope.

(** ** Fatal conditions

    What the C++ leaves undefined (a dereferenced null pointer, a read
    outside an array, a free of something that is not allocated) stops the
    modelled process with the corresponding condition. *)

Inductive fatal : Type :=
| NullDereference
| DanglingPointer
| TypeMismatch
| InvalidFree
| OutOfBounds
| IndexOutOfRange.

Inductive result (A : Type) : Type :=
| Ok (a : A)
| Fatal (e : fatal).
Arguments Ok {A} a.
Arguments Fatal {A} e.

(** A [double] is carried as its 64-bit pattern; no arithmetic is ever done
    on point coordinates here, they are only stored and aliased. *)
Definition double := Z.

Definition handle := positive.

(** The storage a [DenseConstPoint] aliases: a column of a table, or a slot
    of an inbox's staging buffer. *)
Inductive data_ptr : Type :=
| NullData
| TableColumn (table : handle) (point_id : Z)
| InboxSlot (inbox : handle) (rank : Z) (point_id : Z).

(** [core::table::DenseConstPoint]: a non-owning view, set by [Alias]. *)
Record DenseConstPoint : Type := {
  ptr_ : data_ptr;
  n_rows_ : Z
}.

Definition Alias (ptr_in : data_ptr) (length_in : Z) : DenseConstPoint :=
  {| ptr_ := ptr_in; n_rows_ := length_in |}.

(** ** The local partition table (core/table/table.h) *)
Module Table.

(** Modelled from the spec: [core::table::Table] (core/table/table.h is
    not among the sources).  A partition is the ordered set of points
    owned by one process, with the attribute count shared by the whole
    table and its entry count. *)
Record t : Type := {
  n_attributes_ : Z;
  data_ : list (list double)
}.

(** [new TableType()]: an empty table. *)
Definition empty : t := {| n_attributes_ := 0; data_ := [] |}.

Definition n_attributes (self : t) : Z := n_attributes_ self.

Definition n_entries (self : t) : Z := Z.of_nat (length (data_ self)).

(** Modelled from the spec: [Table::get(point_id, entry)].  "point_id is
    always validated against [0, EntryCount()) before dereferencing;
    out-of-range is a programming error, reported as IndexOutOfRange";
    in range the point is returned "by reference with no copy". *)
Definition get (self_at : handle) (self : t) (point_id : Z)
  : result DenseConstPoint :=
  if (0 <=? point_id) && (point_id <? n_entries self)
  then Ok (Alias (TableColumn self_at point_id) (n_attributes self))
  else Fatal IndexOutOfRange.

End Table.

(** ** The mailboxes (core/table/mailbox.h) *)
Module TableInbox.

(** Modelled from the spec: [core::table::TableInbox] (core/table/mailbox.h
    is not among the sources).  The inbox keeps "a retained reply buffer
    keyed by (rank, point_id)", from which the requester alias-reads. *)
Record t : Type := {
  n_attributes_ : Z;
  staged_ : gmap (Z * Z) (list double)
}.

Definition empty : t := {| n_attributes_ := 0; staged_ := ∅ |}.

Definition Init (n_attributes_in : Z) (self : t) : t :=
  {| n_attributes_ := n_attributes_in; staged_ := staged_ self |}.

(** Modelled from the spec: [TableInbox::get_point(rank, point_id)], the
    address of the staging slot of that key. *)
Definition get_point (self_at : handle) (self : t) (rank point_id : Z)
  : data_ptr :=
  InboxSlot self_at rank point_id.

End TableInbox.

Module TableOutbox.

(** Modelled from the spec: [core::table::TableOutbox<TableType>]; this
    class only constructs and destroys it. *)
Record t : Type := { in_flight_ : list (Z * Z) }.

Definition empty : t := {| in_flight_ := [] |}.

End TableOutbox.

(** ** The tree (core/tree/gen_metric_tree.h)

    Only the shape of [TreeType] matters to this class: nodes with a count
    and, unless they are leaves, a left and a right child. *)
Inductive TreeType : Type :=
| TreeLeaf (count : Z)
| TreeNode (count : Z) (left right : TreeType).

(** ** Memory *)

Inductive allocator : Type := Arena | ProcessHeap.

Inductive object : Type :=
| ObjInbox (ib : TableInbox.t)
| ObjOutbox (ob : TableOutbox.t)
| ObjTable (tb : Table.t)
| ObjIntArray (a : list Z)
| ObjTree (tr : TreeType).

Inductive kind : Type := KInbox | KOutbox | KTable | KIntArray | KTree.

Definition kind_of (o : object) : kind :=
  match o with
  | ObjInbox _ => KInbox
  | ObjOutbox _ => KOutbox
  | ObjTable _ => KTable
  | ObjIntArray _ => KIntArray
  | ObjTree _ => KTree
  end.

#[global] Instance allocator_eq_dec : EqDecision allocator.
Proof. solve_decision. Defined.

#[global] Instance kind_eq_dec : EqDecision kind.
Proof. solve_decision. Defined.

Record cell : Type := {
  cell_allocator : allocator;
  cell_object : object
}.

(** What the allocators did, in order. *)
Inductive mem_event : Type :=
| Allocated (by_ : allocator) (k : kind) (at_ : handle)
| Released (by_ : allocator) (k : kind) (at_ : handle).

(** The line printed by [local_n_entries] on a bad rank:
    "Invalid rank specified: %d. %d is the limit.\n". *)
Inductive diagnostic : Type :=
| InvalidRank (rank limit : Z).

(** Everything a process can observe besides its messages: the global
    arena pointer, the cells of both allocators, what the allocators did,
    what was printed, and the contents of the partition files. *)
Record World : Type := {
  global_m_file_ : bool;            (* is [global_m_file_ != NULL] *)
  memory : gmap handle cell;
  mem_events : list mem_event;
  stdout : list diagnostic;
  partition_files : string → Table.t
}.

Definition with_memory (m : gmap handle cell) (ev : list mem_event)
    (w : World) : World :=
  {| global_m_file_ := global_m_file_ w;
     memory := m;
     mem_events := ev;
     stdout := stdout w;
     partition_files := partition_files w |}.

Definition print (d : diagnostic) (w : World) : World :=
  {| global_m_file_ := global_m_file_ w;
     memory := memory w;
     mem_events := mem_events w;
     stdout := stdout w ++ [d];
     partition_files := partition_files w |}.

Definition alive (w : World) (h : handle) : Prop := is_Some (memory w !! h).

Definition allocate (by_ : allocator) (o : object) (w : World)
  : handle * World :=
  let h := fresh (dom (memory w)) in
  (h, with_memory (<[h := {| cell_allocator := by_; cell_object := o |}]>
                     (memory w))
                  (mem_events w ++ [Allocated by_ (kind_of o) h]) w).

(** Releasing a cell: the pointer must be live, point to an object of the
    pointer's static type, and go back to the allocator it came from. *)
Definition release (by_ : allocator) (k : kind) (h : handle) (w : World)
  : result World :=
  match memory w !! h with
  | None => Fatal InvalidFree
  | Some c =>
      if bool_decide (cell_allocator c = by_ ∧ kind_of (cell_object c) = k)
      then Ok (with_memory (delete h (memory w))
                           (mem_events w ++ [Released by_ k h]) w)
      else Fatal InvalidFree
  end.

Definition store (h : handle) (o : object) (w : World) : World :=
  with_memory (alter (λ c, {| cell_allocator := cell_allocator c;
                              cell_object := o |}) h (memory w))
              (mem_events w) w.

(** Dereferencing a possibly null pointer. *)
Definition deref (p : option handle) (w : World) : result (handle * object) :=
  match p with
  | None => Fatal NullDereference
  | Some h =>
      match memory w !! h with
      | None => Fatal DanglingPointer
      | Some c => Ok (h, cell_object c)
      end
  end.

(** ** The shared arena (core/table/memory_mapped_file.h) *)
Module MemoryMappedFile.

(** Modelled from the spec: [MemoryMappedFile::UniqueConstruct<T>()],
    "allocates and in-place-constructs one instance".  It is called
    through [global_m_file_], which must not be null. *)
Definition UniqueConstruct (o : object) (w : World)
  : result (handle * World) :=
  if global_m_file_ w then Ok (allocate Arena o w)
  else Fatal NullDereference.

(** Modelled from the spec: [ConstructArray<int>(n)], "a fixed-length
    array of default-constructed T". *)
Definition ConstructArray (n : Z) (w : World) : result (handle * World) :=
  if global_m_file_ w
  then Ok (allocate Arena (ObjIntArray (replicate (Z.to_nat n) 0)) w)
  else Fatal NullDereference.

(** Modelled from the spec: [Deallocate], "frees raw storage". *)
Definition Deallocate (k : kind) (h : handle) (w : World) : result World :=
  if global_m_file_ w then release Arena k h w
  else Fatal NullDereference.

(** Modelled from the spec: [DestroyPtr], "runs destructor then frees". *)
Definition DestroyPtr (k : kind) (h : handle) (w : World) : result World :=
  if global_m_file_ w then release Arena k h w
  else Fatal NullDereference.

End MemoryMappedFile.

(** [new T()], [new int[n]], [delete] and [delete[]]. *)
Definition new_ (o : object) (w : World) : handle * World :=
  allocate ProcessHeap o w.

Definition delete_ (k : kind) (h : handle) (w : World) : result World :=
  release ProcessHeap k h w.

(** ** Message passing (boost::mpi) *)

(** The three communicator groups a table is run with. *)
Inductive comm_group : Type :=
| TableOutboxGroup
| TableInboxGroup
| ComputationGroup.

#[global] Instance comm_group_eq_dec : EqDecision comm_group.
Proof. solve_decision. Defined.

Record communicator : Type := {
  comm_group_of : comm_group;
  comm_rank : Z;
  comm_size : Z
}.

#[global] Instance communicator_eq_dec : EqDecision communicator.
Proof. solve_decision. Defined.

(** [core::table::DistributedTableMessage], the tags this class uses. *)
Inductive DistributedTableMessage : Type :=
| REQUEST_POINT_FROM_TABLE_OUTBOX
| RECEIVE_POINT_FROM_TABLE_INBOX.

#[global] Instance DistributedTableMessage_eq_dec
  : EqDecision DistributedTableMessage.
Proof. solve_decision. Defined.

(** [core::table::PointRequestMessage(source_rank, point_id)]. *)
Record PointRequestMessage : Type := {
  source_rank_ : Z;
  point_id_ : Z
}.

#[global] Instance PointRequestMessage_eq_dec : EqDecision PointRequestMessage.
Proof. solve_decision. Defined.

(** A process is a tree of its communicator calls: it returns, stops on a
    fatal condition, sends and goes on, waits for a message, or takes part
    in an all-gather. *)
Inductive proc (A : Type) : Type :=
| Return (a : A)
| Crash (e : fatal)
| Send (c : communicator) (dest : Z) (tag : DistributedTableMessage)
       (msg : PointRequestMessage) (k : proc A)
| Recv (c : communicator) (source : Z) (tag : DistributedTableMessage)
       (k : Z → proc A)
| AllGather (c : communicator) (in_value : Z) (k : list Z → proc A).
Arguments Return {A} a.
Arguments Crash {A} e.
Arguments Send {A} c dest tag msg k.
Arguments Recv {A} c source tag k.
Arguments AllGather {A} c in_value k.

Fixpoint proc_bind {A B : Type} (p : proc A) (f : A → proc B) : proc B :=
  match p with
  | Return a => f a
  | Crash e => Crash e
  | Send c dest tag msg k => Send c dest tag msg (proc_bind k f)
  | Recv c source tag k => Recv c source tag (λ v, proc_bind (k v) f)
  | AllGather c v k => AllGather c v (λ vs, proc_bind (k vs) f)
  end.

(** Methods thread a state [S] through the process tree. *)
Definition M (S A : Type) : Type := S → proc (A * S).

Definition ret {S A : Type} (a : A) : M S A := λ s, Return (a, s).

Definition bind {S A B : Type} (m : M S A) (f : A → M S B) : M S B :=
  λ s, proc_bind (m s) (λ r, f (fst r) (snd r)).

Notation "'let*' x ':=' c1 'in' c2" := (bind c1 (λ x, c2))
  (at level 10, x pattern, c1 at level 100, c2 at level 200).

Definition fail {S A : Type} (e : fatal) : M S A := λ _, Crash e.

Definition get_state {S : Type} : M S S := λ s, Return (s, s).

Definition put_state {S : Type} (s : S) : M S unit := λ _, Return (tt, s).

Definition lift_result {S A : Type} (r : result A) : M S A :=
  match r with
  | Ok a => ret a
  | Fatal e => fail e
  end.

Definition send {S : Type} (c : communicator) (dest : Z)
    (tag : DistributedTableMessage) (msg : PointRequestMessage) : M S unit :=
  λ s, Send c dest tag msg (Return (tt, s)).

Definition recv {S : Type} (c : communicator) (source : Z)
    (tag : DistributedTableMessage) : M S Z :=
  λ s, Recv c source tag (λ v, Return (v, s)).

Definition all_gather {S : Type} (c : communicator) (in_value : Z)
  : M S (list Z) :=
  λ s, AllGather c in_value (λ vs, Return (vs, s)).

(** What a process did on its communicators, in order. *)
Inductive io_event : Type :=
| Sent (c : communicator) (dest : Z) (tag : DistributedTableMessage)
       (msg : PointRequestMessage)
| Received (c : communicator) (source : Z) (tag : DistributedTableMessage)
           (value : Z)
| Gathered (c : communicator) (in_value : Z) (out_values : list Z).

(** A message waiting to be received by this process. *)
Record envelope : Type := {
  env_group : comm_group;
  env_source : Z;
  env_tag : DistributedTableMessage;
  env_value : Z
}.

Definition matches (c : communicator) (source : Z)
    (tag : DistributedTableMessage) (e : envelope) : bool :=
  bool_decide (env_group e = comm_group_of c
               ∧ env_source e = source ∧ env_tag e = tag).

(** The first waiting message from [source] with [tag] on [c], taken out of
    the queue. *)
Fixpoint take_matching (c : communicator) (source : Z)
    (tag : DistributedTableMessage) (pending : list envelope)
  : option (Z * list envelope) :=
  match pending with
  | [] => None
  | e :: rest =>
      if matches c source tag e then Some (env_value e, rest)
      else match take_matching c source tag rest with
           | Some (v, rest') => Some (v, e :: rest')
           | None => None
           end
  end.

Inductive outcome (A : Type) : Type :=
| Finished (a : A)
| Crashed (e : fatal)
| Blocked (c : communicator) (source : Z) (tag : DistributedTableMessage).
Arguments Finished {A} a.
Arguments Crashed {A} e.
Arguments Blocked {A} c source tag.

(** What [all_gather] hands back on the process of rank [comm_rank c]: one
    value per rank of the group, its own at its own rank and the peers'
    elsewhere. *)
Definition gathered (c : communicator) (in_value : Z) (peers : Z → Z)
  : list Z :=
  (λ r, if bool_decide (r = comm_rank c) then in_value else peers r)
    <$> seqZ 0 (comm_size c).

(** Running a process against what its peers contribute to all-gathers and
    the messages waiting for it.  A receive with no matching message
    blocks: nothing after it happens. *)
Fixpoint exec {A : Type} (peers : Z → Z) (pending : list envelope)
    (p : proc A) : outcome A * list io_event :=
  match p with
  | Return a => (Finished a, [])
  | Crash e => (Crashed e, [])
  | Send c dest tag msg k =>
      let '(o, tr) := exec peers pending k in
      (o, Sent c dest tag msg :: tr)
  | Recv c source tag k =>
      match take_matching c source tag pending with
      | Some (v, rest) =>
          let '(o, tr) := exec peers rest (k v) in
          (o, Received c source tag v :: tr)
      | None => (Blocked c source tag, [])
      end
  | AllGather c v k =>
      let vs := gathered c v peers in
      let '(o, tr) := exec peers pending (k vs) in
      (o, Gathered c v vs :: tr)
  end.

(** A process that uses no communicator at all. *)
Definition silent {A : Type} (p : proc A) : Prop :=
  match p with
  | Return _ | Crash _ => True
  | _ => False
  end.

(** ** The class [core::table::DistributedTable] *)
Module DistributedTable.

(** The private members; an [offset_ptr] that is [NULL] is [None]. *)
Record t : Type := {
  table_inbox_ : option handle;
  table_outbox_ : option handle;
  owned_table_ : option handle;
  local_n_entries_ : option handle;
  global_tree_ : option handle;
  global_tree_leaf_nodes_ : list handle;
  table_outbox_group_comm_size_ : Z
}.

Record state : Type := {
  this : t;
  world : World
}.

Definition set_table_inbox_ (p : option handle) (self : t) : t :=
  {| table_inbox_ := p;
     table_outbox_ := table_outbox_ self;
     owned_table_ := owned_table_ self;
     local_n_entries_ := local_n_entries_ self;
     global_tree_ := global_tree_ self;
     global_tree_leaf_nodes_ := global_tree_leaf_nodes_ self;
     table_outbox_group_comm_size_ := table_outbox_group_comm_size_ self |}.

Definition set_table_outbox_ (p : option handle) (self : t) : t :=
  {| table_inbox_ := table_inbox_ self;
     table_outbox_ := p;
     owned_table_ := owned_table_ self;
     local_n_entries_ := local_n_entries_ self;
     global_tree_ := global_tree_ self;
     global_tree_leaf_nodes_ := global_tree_leaf_nodes_ self;
     table_outbox_group_comm_size_ := table_outbox_group_comm_size_ self |}.

Definition set_owned_table_ (p : option handle) (self : t) : t :=
  {| table_inbox_ := table_inbox_ self;
     table_outbox_ := table_outbox_ self;
     owned_table_ := p;
     local_n_entries_ := local_n_entries_ self;
     global_tree_ := global_tree_ self;
     global_tree_leaf_nodes_ := global_tree_leaf_nodes_ self;
     table_outbox_group_comm_size_ := table_outbox_group_comm_size_ self |}.

Definition set_local_n_entries_ (p : option handle) (self : t) : t :=
  {| table_inbox_ := table_inbox_ self;
     table_outbox_ := table_outbox_ self;
     owned_table_ := owned_table_ self;
     local_n_entries_ := p;
     global_tree_ := global_tree_ self;
     global_tree_leaf_nodes_ := global_tree_leaf_nodes_ self;
     table_outbox_group_comm_size_ := table_outbox_group_comm_size_ self |}.

Definition set_global_tree_ (p : option handle) (self : t) : t :=
  {| table_inbox_ := table_inbox_ self;
     table_outbox_ := table_outbox_ self;
     owned_table_ := owned_table_ self;
     local_n_entries_ := local_n_entries_ self;
     global_tree_ := p;
     global_tree_leaf_nodes_ := global_tree_leaf_nodes_ self;
     table_outbox_group_comm_size_ := table_outbox_group_comm_size_ self |}.

Definition set_table_outbox_group_comm_size_ (n : Z) (self : t) : t :=
  {| table_inbox_ := table_inbox_ self;
     table_outbox_ := table_outbox_ self;
     owned_table_ := owned_table_ self;
     local_n_entries_ := local_n_entries_ self;
     global_tree_ := global_tree_ self;
     global_tree_leaf_nodes_ := global_tree_leaf_nodes_ self;
     table_outbox_group_comm_size_ := n |}.

(** Statements on members and on the world, in the method monad. *)
Definition member {A : Type} (f : t → A) : M state A :=
  λ s, Return (f (this s), s).

Definition assign (f : t → t) : M state unit :=
  λ s, Return (tt, {| this := f (this s); world := world s |}).

Definition inspect {A : Type} (f : World → A) : M state A :=
  λ s, Return (f (world s), s).

Definition update (f : World → World) : M state unit :=
  λ s, Return (tt, {| this := this s; world := f (world s) |}).

Definition attempt (f : World → result World) : M state unit :=
  let* w := inspect f in
  let* w' := lift_result w in
  update (λ _, w').

Definition construct (f : World → result (handle * World))
  : M state handle :=
  let* r := inspect f in
  let* (h, w') := lift_result r in
  let* _ := update (λ _, w') in
  ret h.

(** [p->...] at the pointer's static type. *)
Definition deref_table (p : option handle) : M state (handle * Table.t) :=
  let* r := inspect (deref p) in
  let* (h, o) := lift_result r in
  match o with
  | ObjTable tb => ret (h, tb)
  | _ => fail TypeMismatch
  end.

Definition deref_inbox (p : option handle)
  : M state (handle * TableInbox.t) :=
  let* r := inspect (deref p) in
  let* (h, o) := lift_result r in
  match o with
  | ObjInbox ib => ret (h, ib)
  | _ => fail TypeMismatch
  end.

Definition deref_int_array (p : option handle)
  : M state (handle * list Z) :=
  let* r := inspect (deref p) in
  let* (h, o) := lift_result r in
  match o with
  | ObjIntArray a => ret (h, a)
  | _ => fail TypeMismatch
  end.

(** [bool IsIndexed() const { return global_tree_ != NULL; }] *)
Definition IsIndexed (self : t) : bool :=
  bool_decide (global_tree_ self ≠ None).

(** The constructor: every pointer null, the group size -1. *)
Definition DistributedTable : t :=
  {| table_inbox_ := None;
     table_outbox_ := None;
     owned_table_ := None;
     local_n_entries_ := None;
     global_tree_ := None;
     global_tree_leaf_nodes_ := [];
     table_outbox_group_comm_size_ := -1 |}.

(** The destructor is five guarded blocks, in this order. *)

(** [if(table_outbox_ != NULL) { global_m_file_->DestroyPtr(...);
     table_outbox_ = NULL; }] *)
Definition destroy_table_outbox : M state unit :=
  let* p := member table_outbox_ in
  match p with
  | Some h =>
      let* _ := attempt (MemoryMappedFile.DestroyPtr KOutbox h) in
      assign (set_table_outbox_ None)
  | None => ret tt
  end.

Definition destroy_table_inbox : M state unit :=
  let* p := member table_inbox_ in
  match p with
  | Some h =>
      let* _ := attempt (MemoryMappedFile.DestroyPtr KInbox h) in
      assign (set_table_inbox_ None)
  | None => ret tt
  end.

(** [Deallocate] in the arena if there is one, [delete[]] otherwise. *)
Definition destroy_local_n_entries : M state unit :=
  let* p := member local_n_entries_ in
  match p with
  | Some h =>
      let* arena := inspect global_m_file_ in
      let* _ := (if arena : bool
                 then attempt (MemoryMappedFile.Deallocate KIntArray h)
                 else attempt (delete_ KIntArray h)) in
      assign (set_local_n_entries_ None)
  | None => ret tt
  end.

Definition destroy_owned_table : M state unit :=
  let* p := member owned_table_ in
  match p with
  | Some h =>
      let* arena := inspect global_m_file_ in
      let* _ := (if arena : bool
                 then attempt (MemoryMappedFile.DestroyPtr KTable h)
                 else attempt (delete_ KTable h)) in
      assign (set_owned_table_ None)
  | None => ret tt
  end.

Definition destroy_global_tree : M state unit :=
  let* p := member global_tree_ in
  match p with
  | Some h =>
      let* _ := attempt (delete_ KTree h) in
      assign (set_global_tree_ None)
  | None => ret tt
  end.

Definition destructor_blocks : list (M state unit) :=
  [ destroy_table_outbox;
    destroy_table_inbox;
    destroy_local_n_entries;
    destroy_owned_table;
    destroy_global_tree ].

Fixpoint run_blocks (blocks : list (M state unit)) : M state unit :=
  match blocks with
  | [] => ret tt
  | b :: rest => let* _ := b in run_blocks rest
  end.

(** [~DistributedTable()] *)
Definition destructor : M state unit := run_blocks destructor_blocks.

(** [TreeType *get_tree() { return global_tree_.get(); }] *)
Definition get_tree (self : t) : option handle := global_tree_ self.

(** [int n_attributes() const] *)
Definition n_attributes : M state Z :=
  let* p := member owned_table_ in
  let* (_, tb) := deref_table p in
  ret (Table.n_attributes tb).

(** [int local_n_entries(int rank_in) const] *)
Definition local_n_entries (rank_in : Z) : M state Z :=
  let* size := member table_outbox_group_comm_size_ in
  if size <=? rank_in then
    let* _ := update (print (InvalidRank rank_in size)) in
    ret (-1)
  else
    let* p := member local_n_entries_ in
    let* (_, a) := deref_int_array p in
    if rank_in <? 0 then fail OutOfBounds
    else match a !! Z.to_nat rank_in with
         | Some v => ret v
         | None => fail OutOfBounds
         end.

(** [int local_n_entries() const] *)
Definition local_n_entries_own : M state Z :=
  let* p := member owned_table_ in
  let* (_, tb) := deref_table p in
  ret (Table.n_entries tb).

(** Modelled from the spec: [Table::Init(file_name)] (core/table/table.h
    is not among the sources), which "loads this process's shard of
    points and records its own entry-count". *)
Definition Table_Init (file_name : string) (self_at : handle) (w : World)
  : World :=
  store self_at (ObjTable (partition_files w file_name)) w.

(** [boost::mpi::all_gather(comm, in_value, out_values)] writes one value
    per rank from [out_values] on. *)
Definition write_values (out_values : option handle) (values : list Z)
  : M state unit :=
  let* (h, a) := deref_int_array out_values in
  if bool_decide (length values ≤ length a)%nat
  then update (store h (ObjIntArray (values ++ drop (length values) a)))
  else fail OutOfBounds.

(** [void Init(const std::string &file_name,
               boost::mpi::communicator &table_outbox_group_communicator_in)] *)
Definition Init (file_name : string)
    (table_outbox_group_communicator_in : communicator) : M state unit :=
  (* Initialize the table owned by the distributed table. *)
  let* arena := inspect global_m_file_ in
  let* tb := (if arena : bool
              then construct
                     (MemoryMappedFile.UniqueConstruct (ObjTable Table.empty))
              else construct (λ w, Ok (new_ (ObjTable Table.empty) w))) in
  let* _ := assign (set_owned_table_ (Some tb)) in
  let* p := member owned_table_ in
  let* (h, _) := deref_table p in
  let* _ := update (Table_Init file_name h) in
  (* Initialize the mailboxes. *)
  let* ob := construct (MemoryMappedFile.UniqueConstruct
                          (ObjOutbox TableOutbox.empty)) in
  let* _ := assign (set_table_outbox_ (Some ob)) in
  let* ib := construct (MemoryMappedFile.UniqueConstruct
                          (ObjInbox TableInbox.empty)) in
  let* _ := assign (set_table_inbox_ (Some ib)) in
  let* n := n_attributes in
  let* p := member table_inbox_ in
  let* (h, inbox) := deref_inbox p in
  let* _ := update (store h (ObjInbox (TableInbox.Init n inbox))) in
  (* Allocate the vector of the numbers of entries and all-gather. *)
  let size := comm_size table_outbox_group_communicator_in in
  let* _ := assign (set_table_outbox_group_comm_size_ size) in
  let* arena := inspect global_m_file_ in
  let* counts := (if arena : bool
                  then construct (MemoryMappedFile.ConstructArray size)
                  else construct
                         (λ w, Ok (new_ (ObjIntArray
                                           (replicate (Z.to_nat size) 0))
                                        w))) in
  let* _ := assign (set_local_n_entries_ (Some counts)) in
  let* n_entries := local_n_entries_own in
  let* values := all_gather table_outbox_group_communicator_in n_entries in
  let* out_values := member local_n_entries_ in
  write_values out_values values.

(** [void Save(const std::string &file_name) const { }] *)
Definition Save (file_name : string) : M state unit := ret tt.

(** The metric and the sampling probability of [IndexData] are not used. *)
Record AbstractMetric : Type := { metric_name : string }.

(** [void IndexData(const core::metric_kernels::AbstractMetric &metric_in,
                    double sample_probability_in) { }] *)
Definition IndexData (metric_in : AbstractMetric)
    (sample_probability_in : double) : M state unit := ret tt.

(** [void get(boost::mpi::communicator &table_outbox_group_comm_in,
              boost::mpi::communicator &table_inbox_group_comm_in,
              int requested_rank, int point_id,
              core::table::DenseConstPoint *entry)]; the out-parameter
    [entry] goes in and comes back. *)
Definition get (table_outbox_group_comm_in table_inbox_group_comm_in
                  : communicator)
    (requested_rank point_id : Z) (entry : DenseConstPoint)
  : M state DenseConstPoint :=
  (* If owned by the process, just return the point. *)
  if bool_decide (comm_rank table_outbox_group_comm_in = requested_rank)
  then
    let* p := member owned_table_ in
    let* (h, tb) := deref_table p in
    lift_result (Table.get h tb point_id)
  (* If the inbox has already fetched the point (do a cache lookup)
     here, then no MPI call is necessary. *)
  else if false then ret entry
  else
    (* The point request message. *)
    let point_request_message :=
      {| source_rank_ := comm_rank table_outbox_group_comm_in;
         point_id_ := point_id |} in
    (* Inform the source processor that this processor needs data! *)
    let* _ := send table_outbox_group_comm_in requested_rank
                   REQUEST_POINT_FROM_TABLE_OUTBOX point_request_message in
    (* Wait until the point has arrived. *)
    let* dummy := recv table_inbox_group_comm_in
                       (comm_rank table_outbox_group_comm_in)
                       RECEIVE_POINT_FROM_TABLE_INBOX in
    (* If we are here, then the point is ready. Alias the point. *)
    let* p := member table_inbox_ in
    let* (h, inbox) := deref_inbox p in
    let* n := n_attributes in
    ret (Alias (TableInbox.get_point h inbox requested_rank point_id) n).

(** A computation on the world alone, run from inside a method: the
    members of the table are out of its reach. *)
Definition on_world {A : Type} (m : M World A) : M state A :=
  λ s, proc_bind (m (world s))
                 (λ r, Return (r.1, {| this := this s; world := r.2 |})).

Definition deref_outbox (p : option handle)
  : M state (handle * TableOutbox.t) :=
  let* r := inspect (deref p) in
  let* (h, o) := lift_result r in
  match o with
  | ObjOutbox ob => ret (h, ob)
  | _ => fail TypeMismatch
  end.

Definition deref_tree (p : option handle) : M state (handle * TreeType) :=
  let* r := inspect (deref p) in
  let* (h, o) := lift_result r in
  match o with
  | ObjTree tr => ret (h, tr)
  | _ => fail TypeMismatch
  end.

(** The member functions of the mailboxes and of the tree that this class
    calls are defined in headers that are not among the sources
    (core/table/mailbox.h, core/tree/gen_metric_tree.h).  Each is taken as
    a parameter: what the object at the given address does to the world
    and to the communicators. *)

(** [void UnlockPointinTableInbox() { table_inbox_->UnlockPoint(); }] *)
Definition UnlockPointinTableInbox (UnlockPoint : handle → M World unit)
  : M state unit :=
  let* p := member table_inbox_ in
  let* (h, _) := deref_inbox p in
  on_world (UnlockPoint h).

(** [void RunInbox(...) { table_inbox_->Run(table_outbox_group_comm_in,
      table_inbox_group_comm_in, computation_group_comm_in); }] *)
Definition RunInbox
    (Run : handle → communicator → communicator → communicator
           → M World unit)
    (table_outbox_group_comm_in table_inbox_group_comm_in
       computation_group_comm_in : communicator) : M state unit :=
  let* p := member table_inbox_ in
  let* (h, _) := deref_inbox p in
  on_world (Run h table_outbox_group_comm_in table_inbox_group_comm_in
                computation_group_comm_in).

(** [void RunOutbox(...) { table_outbox_->Run(...); }] *)
Definition RunOutbox
    (Run : handle → communicator → communicator → communicator
           → M World unit)
    (table_outbox_group_comm_in table_inbox_group_comm_in
       computation_group_comm_in : communicator) : M state unit :=
  let* p := member table_outbox_ in
  let* (h, _) := deref_outbox p in
  on_world (Run h table_outbox_group_comm_in table_inbox_group_comm_in
                computation_group_comm_in).

(** [void PrintTree() const { global_tree_->Print(); }] *)
Definition PrintTree (tree_Print : handle → M World unit)
  : M state unit :=
  let* p := member global_tree_ in
  let* (h, _) := deref_tree p in
  on_world (tree_Print h).

(** [Init], block by block.  Its first block, "Initialize the table owned
    by the distributed table":
    [owned_table_ = (global_m_file_) ? global_m_file_->UniqueConstruct<TableType>()
                                     : new TableType();
     owned_table_->Init(file_name);] *)
Definition Init_owned_table (file_name : string) : M state unit :=
  let* arena := inspect global_m_file_ in
  let* tb := (if arena : bool
              then construct
                     (MemoryMappedFile.UniqueConstruct (ObjTable Table.empty))
              else construct (λ w, Ok (new_ (ObjTable Table.empty) w))) in
  let* _ := assign (set_owned_table_ (Some tb)) in
  let* p := member owned_table_ in
  let* (h, _) := deref_table p in
  update (Table_Init file_name h).

(** The first statement of its second block, "Initialize the mailboxes":
    [table_outbox_ = global_m_file_->UniqueConstruct<TableOutbox<TableType> >();] *)
Definition Init_table_outbox : M state unit :=
  let* ob := construct (MemoryMappedFile.UniqueConstruct
                          (ObjOutbox TableOutbox.empty)) in
  assign (set_table_outbox_ (Some ob)).

(** The rest: the inbox, the size of the group, the array of entry counts
    and the all-gather. *)
Definition Init_inbox_and_counts
    (table_outbox_group_communicator_in : communicator) : M state unit :=
  let* ib := construct (MemoryMappedFile.UniqueConstruct
                          (ObjInbox TableInbox.empty)) in
  let* _ := assign (set_table_inbox_ (Some ib)) in
  let* n := n_attributes in
  let* p := member table_inbox_ in
  let* (h, inbox) := deref_inbox p in
  let* _ := update (store h (ObjInbox (TableInbox.Init n inbox))) in
  let size := comm_size table_outbox_group_communicator_in in
  let* _ := assign (set_table_outbox_group_comm_size_ size) in
  let* arena := inspect global_m_file_ in
  let* counts := (if arena : bool
                  then construct (MemoryMappedFile.ConstructArray size)
                  else construct
                         (λ w, Ok (new_ (ObjIntArray
                                           (replicate (Z.to_nat size) 0))
                                        w))) in
  let* _ := assign (set_local_n_entries_ (Some counts)) in
  let* n_entries := local_n_entries_own in
  let* values := all_gather table_outbox_group_communicator_in n_entries in
  let* out_values := member local_n_entries_ in
  write_values out_values values.

(** The three in a row; [Init_by_blocks] below shows that this is [Init]. *)
Definition Init_blocks (file_name : string)
    (table_outbox_group_communicator_in : communicator) : M state unit :=
  let* _ := Init_owned_table file_name in
  let* _ := Init_table_outbox in
  Init_inbox_and_counts table_outbox_group_communicator_in.

End DistributedTable.

(** Reading through an alias: the coordinates it currently designates. *)
Definition read_alias (w : World) (p : DenseConstPoint)
  : option (list double) :=
  match ptr_ p with
  | NullData => None
  | TableColumn h point_id =>
      match cell_object <$> memory w !! h with
      | Some (ObjTable tb) =>
          if point_id <? 0 then None
          else Table.data_ tb !! Z.to_nat point_id
      | _ => None
      end
  | InboxSlot h rank point_id =>
      match cell_object <$> memory w !! h with
      | Some (ObjInbox ib) => TableInbox.staged_ ib !! (rank, point_id)
      | _ => None
      end
  end.

(** ** A group of processes initialising their tables together *)

(** What a process brings to the all-gather it is standing at. *)
Definition contribution {A : Type} (p : proc A) : option Z :=
  match p with
  | AllGather _ v _ => Some v
  | _ => None
  end.

(** The communicator of the table outboxes, as the process of rank [rank]
    in a group of [size] holds it. *)
Definition group_comm (size rank : nat) : communicator :=
  {| comm_group_of := TableOutboxGroup;
     comm_rank := Z.of_nat rank;
     comm_size := Z.of_nat size |}.

(** What the peers bring to an all-gather whose members bring [values]. *)
Definition group_peers (values : list Z) (r : Z) : Z :=
  default 0 (values !! Z.to_nat r).

(** The process of rank [rank] in a group of [size]: it builds a table in
    its own world and calls [Init] on its own file. *)
Definition Init_process (size : nat) (rank : nat) (member : World * string)
  : proc (unit * DistributedTable.state) :=
  DistributedTable.Init (snd member) (group_comm size rank)
    {| DistributedTable.this := DistributedTable.DistributedTable;
       DistributedTable.world := fst member |}.

(** All members call [Init]; the all-gather completes only if every one of
    them reaches it, and then each is resumed with everybody's value. *)
Definition Init_group (members : list (World * string))
  : option (list (outcome (unit * DistributedTable.state))) :=
  let programs := imap (Init_process (length members)) members in
  values ← mapM contribution programs;
  Some ((λ p, fst (exec (group_peers values) [] p)) <$> programs).

(** The entry counts a table reports for the ranks [0 .. size-1], when all
    the queries return. *)
Definition entry_counts (size : nat) (s : DistributedTable.state)
  : option (list Z) :=
  mapM (λ r, match DistributedTable.local_n_entries r s with
             | Return (v, _) => Some v
             | _ => None
             end) (seqZ 0 (Z.of_nat size)).

Definition sum_list (l : list Z) : Z := foldr Z.add 0 l.

(** The points a member loads. *)
Definition loaded (member : World * string) : Table.t :=
  partition_files (fst member) (snd member).

(** The entry counts of the partitions of the members, by rank. *)
Definition group_values (members : list (World * string)) : list Z :=
  Table.n_entries ∘ loaded <$> members.

Definition total_points (members : list (World * string)) : Z :=
  sum_list (group_values members).

(** The state a member finishes [Init] in. *)
Definition final_state (member : World * string)
    (o : outcome (unit * DistributedTable.state)) : DistributedTable.state :=
  match o with
  | Finished (_, s) => s
  | _ => {| DistributedTable.this := DistributedTable.DistributedTable;
            DistributedTable.world := fst member |}
  end.

Definition group_states (members : list (World * string))
  : list DistributedTable.state :=
  imap (λ rank member,
          final_state member
            (fst (exec (group_peers (group_values members)) []
                       (Init_process (length members) rank member))))
       members.

(** ** Vocabulary of the statements *)

(** What [Init] leaves behind, given the table [t0] and the world [w] it
    started from and the [values] the all-gather handed back. *)
Record Init_post (t0 : DistributedTable.t) (w : World) (f : string)
    (c : communicator) (values : list Z) (s : DistributedTable.state)
  : Prop := {
  post_tree :
    DistributedTable.global_tree_ (DistributedTable.this s)
    = DistributedTable.global_tree_ t0;
  post_size :
    DistributedTable.table_outbox_group_comm_size_ (DistributedTable.this s)
    = comm_size c;
  post_counts :
    ∃ h, DistributedTable.local_n_entries_ (DistributedTable.this s) = Some h
         ∧ deref (Some h) (DistributedTable.world s)
           = Ok (h, ObjIntArray values);
  post_table :
    ∃ h, DistributedTable.owned_table_ (DistributedTable.this s) = Some h
         ∧ deref (Some h) (DistributedTable.world s)
           = Ok (h, ObjTable (partition_files w f));
  post_outbox :
    ∃ h, DistributedTable.table_outbox_ (DistributedTable.this s) = Some h
         ∧ deref (Some h) (DistributedTable.world s)
           = Ok (h, ObjOutbox TableOutbox.empty);
  post_inbox :
    ∃ h, DistributedTable.table_inbox_ (DistributedTable.this s) = Some h
         ∧ deref (Some h) (DistributedTable.world s)
           = Ok (h, ObjInbox
                      (TableInbox.Init
                         (Table.n_attributes (partition_files w f))
                         TableInbox.empty));
  post_arena : global_m_file_ (DistributedTable.world s) = true;
  post_stdout : stdout (DistributedTable.world s) = stdout w;
  post_files : partition_files (DistributedTable.world s) = partition_files w
}.

(** The release a guarded block of the destructor performs on a pointer. *)
Definition guarded_release (by_ : allocator) (k : kind) (p : option handle)
  : list mem_event :=
  match p with
  | Some h => [Released by_ k h]
  | None => []
  end.

(** Where the entry counts and the owned table go back to. *)
Definition home (w : World) : allocator :=
  if global_m_file_ w then Arena else ProcessHeap.

(** The releases of a whole teardown of [s], in the order of the blocks of
    the destructor. *)
Definition teardown_releases (s : DistributedTable.state) : list mem_event :=
  let self := DistributedTable.this s in
  let w := DistributedTable.world s in
  guarded_release Arena KOutbox (DistributedTable.table_outbox_ self)
  ++ guarded_release Arena KInbox (DistributedTable.table_inbox_ self)
  ++ guarded_release (home w) KIntArray
       (DistributedTable.local_n_entries_ self)
  ++ guarded_release (home w) KTable (DistributedTable.owned_table_ self)
  ++ guarded_release ProcessHeap KTree (DistributedTable.global_tree_ self).

(** The kinds of the objects released, in order. *)
Definition released_kinds (events : list mem_event) : list kind :=
  omap (λ e, match e with
             | Released _ k _ => Some k
             | Allocated _ _ _ => None
             end) events.

(** The pointer is set and what it points to is still allocated. *)
Definition reachable (p : option handle) (w : World) : Prop :=
  ∃ h, p = Some h ∧ alive w h.

(** Two fetches of the same point in a row. *)
Definition get_twice (table_outbox_group_comm_in table_inbox_group_comm_in
                        : communicator)
    (requested_rank point_id : Z) (entry : DenseConstPoint)
  : M DistributedTable.state DenseConstPoint :=
  let* first := DistributedTable.get table_outbox_group_comm_in
                  table_inbox_group_comm_in requested_rank point_id entry in
  DistributedTable.get table_outbox_group_comm_in
    table_inbox_group_comm_in requested_rank point_id first.

(** ** A concrete job: four processes with ten points of three attributes *)

Definition example_partition (n_points : nat) : Table.t :=
  {| Table.n_attributes_ := 3;
     Table.data_ := (λ i, [3 * i; 3 * i + 1; 3 * i + 2])
                      <$> seqZ 0 (Z.of_nat n_points) |}.

Definition example_world (n_points : nat) : World :=
  {| global_m_file_ := true;
     memory := ∅;
     mem_events := [];
     stdout := [];
     partition_files := λ _, example_partition n_points |}.

Definition example_members : list (World * string) :=
  replicate 4 (example_world 10, "points.csv"%string).

Definition outbox_comm (rank size : Z) : communicator :=
  {| comm_group_of := TableOutboxGroup; comm_rank := rank; comm_size := size |}.

Definition inbox_comm (rank size : Z) : communicator :=
  {| comm_group_of := TableInboxGroup; comm_rank := rank; comm_size := size |}.

Definition constructed (w : World) : DistributedTable.state :=
  {| DistributedTable.this := DistributedTable.DistributedTable;
     DistributedTable.world := w |}.

(** The table of the process of rank 2 once the four have run [Init]. *)
Definition example_table : DistributedTable.state :=
  match Init_group example_members with
  | Some outcomes =>
      match outcomes !! 2%nat with
      | Some (Finished (_, s)) => s
      | _ => constructed (example_world 10)
      end
  | None => constructed (example_world 10)
  end.

(** The acknowledgment of an inbox, as it waits in a process's queue. *)
Definition acknowledgment (source : Z) : envelope :=
  {| env_group := TableInboxGroup;
     env_source := source;
     env_tag := RECEIVE_POINT_FROM_TABLE_INBOX;
     env_value := 0 |}.

Definition no_entry : DenseConstPoint := Alias NullData 0.

Definition example_metric : DistributedTable.AbstractMetric :=
  {| DistributedTable.metric_name := "l2" |}.

(** The trace of [Init] on the process of rank 2 of the example job. *)
Definition example_Init_trace : list io_event :=
  [Gathered (outbox_comm 2 4) 10 [10; 10; 10; 10]].

(** The request the process of rank 2 sends for a point of rank 0. *)
Definition example_request (point_id : Z) : io_event :=
  Sent (outbox_comm 2 4) 0 REQUEST_POINT_FROM_TABLE_OUTBOX
       {| source_rank_ := 2; point_id_ := point_id |}.

(** The value a process finished with, if it did. *)
Definition returned {A S : Type} (o : outcome (A * S)) : option A :=
  match o with
  | Finished (a, _) => Some a
  | _ => None
  end.

(** The end of the remote branch of [get]: once the acknowledgment is in,
    alias the slot of the inbox. *)
Definition alias_staged (requested_rank point_id : Z)
  : M DistributedTable.state DenseConstPoint :=
  let* p := DistributedTable.member DistributedTable.table_inbox_ in
  let* (h, inbox) := DistributedTable.deref_inbox p in
  let* n := DistributedTable.n_attributes in
  ret (Alias (TableInbox.get_point h inbox requested_rank point_id) n).

(** What one guarded block of the destructor does to a state: the pointer
    of the block is null afterwards, and if it was set, what it pointed to
    was allocated and has gone back to its allocator. *)
Record block_effect (field : DistributedTable.t → option handle)
    (set_field : option handle → DistributedTable.t → DistributedTable.t)
    (k : kind) (s s1 : DistributedTable.state) : Prop := {
  effect_this :
    DistributedTable.this s1 = set_field None (DistributedTable.this s);
  effect_events :
    mem_events (DistributedTable.world s1)
    = mem_events (DistributedTable.world s)
      ++ guarded_release
           (match k with
            | KInbox | KOutbox => Arena
            | KIntArray | KTable => home (DistributedTable.world s)
            | KTree => ProcessHeap
            end) k (field (DistributedTable.this s));
  effect_memory :
    memory (DistributedTable.world s1)
    = from_option (λ h, delete h (memory (DistributedTable.world s)))
                  (memory (DistributedTable.world s))
                  (field (DistributedTable.this s));
  effect_alive :
    ∀ h, field (DistributedTable.this s) = Some h →
         alive (DistributedTable.world s) h;
  effect_arena :
    global_m_file_ (DistributedTable.world s1)
    = global_m_file_ (DistributedTable.world s);
  effect_stdout :
    stdout (DistributedTable.world s1) = stdout (DistributedTable.world s);
  effect_files :
    partition_files (DistributedTable.world s1)
    = partition_files (DistributedTable.world s)
}.

(** The member that points to the object of each kind. *)
Definition pointer_of (k : kind) (self : DistributedTable.t)
  : option handle :=
  match k with
  | KInbox => DistributedTable.table_inbox_ self
  | KOutbox => DistributedTable.table_outbox_ self
  | KTable => DistributedTable.owned_table_ self
  | KIntArray => DistributedTable.local_n_entries_ self
  | KTree => DistributedTable.global_tree_ self
  end.

(** In the state [s] of a teardown started in [s0], the inbox of the table
    is still allocated although its owned partition has been freed. *)
Definition inbox_outlives_partition (s0 s : DistributedTable.state) : Prop :=
  reachable (DistributedTable.table_inbox_ (DistributedTable.this s0))
            (DistributedTable.world s)
  ∧ ∃ ht, DistributedTable.owned_table_ (DistributedTable.this s0) = Some ht
          ∧ ¬ alive (DistributedTable.world s) ht.

(** What the allocators did since the state [s]. *)
Definition events_since (s s' : DistributedTable.state) : list mem_event :=
  drop (length (mem_events (DistributedTable.world s)))
       (mem_events (DistributedTable.world s')).

(** The example table after its destructor has run. *)
Definition example_torn_down : DistributedTable.state :=
  match DistributedTable.destructor example_table with
  | Return (_, s') => s'
  | _ => example_table
  end.

(** ** Vocabulary of the further properties *)

(** Every way the process can return satisfies [Q], whatever it receives
    and whatever is gathered. *)
Fixpoint always {A : Type} (Q : A → Prop) (p : proc A) : Prop :=
  match p with
  | Return a => Q a
  | Crash _ => True
  | Send _ _ _ _ k => always Q k
  | Recv _ _ _ k => ∀ v, always Q (k v)
  | AllGather _ _ k => ∀ values, always Q (k values)
  end.

(** A method keeps the invariant [I] of the state. *)
Definition keeps {A : Type} (I : DistributedTable.state → Prop)
    (m : M DistributedTable.state A) : Prop :=
  ∀ s, I s → always (λ r, I r.2) (m s).

(** The table has no tree. *)
Definition unindexed (s : DistributedTable.state) : Prop :=
  DistributedTable.global_tree_ (DistributedTable.this s) = None.

(** What the mailboxes and the tree do when this class calls them. *)
Record collaborators : Type := {
  inbox_UnlockPoint : handle → M World unit;
  inbox_Run : handle → communicator → communicator → communicator
              → M World unit;
  outbox_Run : handle → communicator → communicator → communicator
               → M World unit;
  tree_Print : handle → M World unit
}.

(** A call of a public member function of the class. *)
Inductive call : Type :=
| Call_Init (file_name : string) (c : communicator)
| Call_Save (file_name : string)
| Call_IndexData (metric_in : DistributedTable.AbstractMetric)
                 (sample_probability_in : double)
| Call_get (c_out c_in : communicator) (requested_rank point_id : Z)
           (entry : DenseConstPoint)
| Call_n_attributes
| Call_local_n_entries (rank_in : Z)
| Call_local_n_entries_own
| Call_UnlockPointinTableInbox
| Call_RunInbox (c_out c_in c_comp : communicator)
| Call_RunOutbox (c_out c_in c_comp : communicator)
| Call_PrintTree.

Definition perform (env : collaborators) (c : call)
  : M DistributedTable.state unit :=
  match c with
  | Call_Init file_name c => DistributedTable.Init file_name c
  | Call_Save file_name => DistributedTable.Save file_name
  | Call_IndexData metric_in p => DistributedTable.IndexData metric_in p
  | Call_get c_out c_in requested_rank point_id entry =>
      let* _ := DistributedTable.get c_out c_in requested_rank point_id
                                     entry in
      ret tt
  | Call_n_attributes => let* _ := DistributedTable.n_attributes in ret tt
  | Call_local_n_entries rank_in =>
      let* _ := DistributedTable.local_n_entries rank_in in ret tt
  | Call_local_n_entries_own =>
      let* _ := DistributedTable.local_n_entries_own in ret tt
  | Call_UnlockPointinTableInbox =>
      DistributedTable.UnlockPointinTableInbox (inbox_UnlockPoint env)
  | Call_RunInbox c_out c_in c_comp =>
      DistributedTable.RunInbox (inbox_Run env) c_out c_in c_comp
  | Call_RunOutbox c_out c_in c_comp =>
      DistributedTable.RunOutbox (outbox_Run env) c_out c_in c_comp
  | Call_PrintTree => DistributedTable.PrintTree (tree_Print env)
  end.

(** A program of calls on one table, one after the other. *)
Fixpoint perform_all (env : collaborators) (calls : list call)
  : M DistributedTable.state unit :=
  match calls with
  | [] => ret tt
  | c :: rest => let* _ := perform env c in perform_all env rest
  end.

(** Collaborators that do nothing, for the concrete runs. *)
Definition idle : collaborators :=
  {| inbox_UnlockPoint := λ _, ret tt;
     inbox_Run := λ _ _ _ _, ret tt;
     outbox_Run := λ _ _ _ _, ret tt;
     tree_Print := λ _, ret tt |}.

(** A cell, by its allocator and its content. *)
Definition cell_of (by_ : allocator) (o : object) : cell :=
  {| cell_allocator := by_; cell_object := o |}.

(** The state [Init] finishes in when it started in the world [w]: four
    new cells of the arena, in the order of their allocation. *)
Record Init_layout (t0 : DistributedTable.t) (w : World) (f : string)
    (c : communicator) (values : list Z) (s : DistributedTable.state)
    (h1 h2 h3 h4 : handle) : Prop := {
  layout_this :
    DistributedTable.this s
    = {| DistributedTable.table_inbox_ := Some h3;
         DistributedTable.table_outbox_ := Some h2;
         DistributedTable.owned_table_ := Some h1;
         DistributedTable.local_n_entries_ := Some h4;
         DistributedTable.global_tree_ := DistributedTable.global_tree_ t0;
         DistributedTable.global_tree_leaf_nodes_ :=
           DistributedTable.global_tree_leaf_nodes_ t0;
         DistributedTable.table_outbox_group_comm_size_ := comm_size c |};
  layout_fresh : Forall (λ h, memory w !! h = None) [h1; h2; h3; h4];
  layout_distinct : NoDup [h1; h2; h3; h4];
  layout_memory :
    memory (DistributedTable.world s)
    = <[h4 := cell_of Arena (ObjIntArray values)]>
        (<[h3 := cell_of Arena
                   (ObjInbox (TableInbox.Init
                                (Table.n_attributes (partition_files w f))
                                TableInbox.empty))]>
           (<[h2 := cell_of Arena (ObjOutbox TableOutbox.empty)]>
              (<[h1 := cell_of Arena (ObjTable (partition_files w f))]>
                 (memory w))));
  layout_events :
    mem_events (DistributedTable.world s)
    = mem_events w ++ [Allocated Arena KTable h1; Allocated Arena KOutbox h2;
                       Allocated Arena KInbox h3;
                       Allocated Arena KIntArray h4];
  layout_arena : global_m_file_ (DistributedTable.world s) = true;
  layout_stdout : stdout (DistributedTable.world s) = stdout w;
  layout_files :
    partition_files (DistributedTable.world s) = partition_files w
}.

(** The example world with a null [global_m_file_]. *)
Definition example_world_without_arena : World :=
  {| global_m_file_ := false;
     memory := ∅;
     mem_events := [];
     stdout := [];
     partition_files := λ _, example_partition 10 |}.

(** The same state once [global_m_file_] has been reset to null. *)
Definition without_arena (s : DistributedTable.state)
  : DistributedTable.state :=
  {| DistributedTable.this := DistributedTable.this s;
     DistributedTable.world :=
       {| global_m_file_ := false;
          memory := memory (DistributedTable.world s);
          mem_events := mem_events (DistributedTable.world s);
          stdout := stdout (DistributedTable.world s);
          partition_files := partition_files (DistributedTable.world s) |} |}.

(** The example table after a second [Init]. *)
Definition example_table_again : DistributedTable.state :=
  match exec (λ _, 10) []
             (DistributedTable.Init "points.csv" (outbox_comm 2 4)
                                    example_table)
  with
  | (Finished (_, s), _) => s
  | _ => example_table
  end.

(** A program of calls on the process of rank 2 of the example job. *)
Definition example_calls : list call :=
  [Call_Init "points.csv" (outbox_comm 2 4);
   Call_IndexData example_metric 1;
   Call_Save "table.bin";
   Call_local_n_entries 0;
   Call_get (outbox_comm 2 4) (inbox_comm 2 4) 2 7 no_entry;
   Call_UnlockPointinTableInbox].

(** The calls that hand over to a member function of a mailbox, whose code
    is not among the sources. *)
Definition calls_collaborator (c : call) : bool :=
  match c with
  | Call_UnlockPointinTableInbox | Call_RunInbox _ _ _ | Call_RunOutbox _ _ _ =>
      true
  | _ => false
  end.

(** The table has no tree and its destructor would run to its end. *)
Definition destructible (s : DistributedTable.state) : Prop :=
  unindexed s ∧ ∃ s', DistributedTable.destructor s = Return (tt, s').

(** The state after a line has been printed. *)
Definition printed (d : diagnostic) (s : DistributedTable.state)
  : DistributedTable.state :=
  {| DistributedTable.this := DistributedTable.this s;
     DistributedTable.world := print d (DistributedTable.world s) |}.

(** The example program without its call of a mailbox. *)
Definition example_own_calls : list call :=
  [Call_Init "points.csv" (outbox_comm 2 4);
   Call_IndexData example_metric 1;
   Call_Save "table.bin";
   Call_local_n_entries 0;
   Call_get (outbox_comm 2 4) (inbox_comm 2 4) 2 7 no_entry;
   Call_n_attributes].

(** * Properties *)

Import DistributedTable.

(** ** Memory *)

Section memory_facts.
Context (w : World).

Lemma allocate_fresh by_ o : memory w !! (allocate by_ o w).1 = None.
Proof. apply not_elem_of_dom, is_fresh. Qed.

Lemma memory_allocate by_ o :
  memory (allocate by_ o w).2
  = <[(allocate by_ o w).1
      := {| cell_allocator := by_; cell_object := o |}]> (memory w).
Proof. reflexivity. Qed.

Lemma deref_allocate_eq by_ o :
  deref (Some (allocate by_ o w).1) (allocate by_ o w).2
  = Ok ((allocate by_ o w).1, o).
Proof.
  unfold deref. rewrite memory_allocate, lookup_insert_eq. reflexivity.
Qed.

Lemma deref_allocate_ne by_ o h r :
  deref (Some h) w = Ok r → deref (Some h) (allocate by_ o w).2 = Ok r.
Proof.
  unfold deref. rewrite memory_allocate.
  destruct (memory w !! h) as [c|] eqn:Hh; [|discriminate].
  intros Hr. rewrite lookup_insert_ne, Hh; [done|].
  intros <-. rewrite allocate_fresh in Hh. discriminate.
Qed.

Lemma deref_store_eq h o o0 :
  deref (Some h) w = Ok (h, o0) → deref (Some h) (store h o w) = Ok (h, o).
Proof.
  unfold deref, store. cbn. rewrite lookup_alter_eq.
  destruct (memory w !! h); [done|discriminate].
Qed.

Lemma deref_store_ne h h' o :
  h ≠ h' → deref (Some h') (store h o w) = deref (Some h') w.
Proof. intros Hne. unfold deref, store. cbn. by rewrite lookup_alter_ne. Qed.

Lemma global_m_file_store h o :
  global_m_file_ (store h o w) = global_m_file_ w.
Proof. reflexivity. Qed.

Lemma partition_files_store h o :
  partition_files (store h o w) = partition_files w.
Proof. reflexivity. Qed.

(** An allocation, seen from outside: a new cell holding the object;
    every cell that could be read before reads the same. *)
Lemma allocate_inv by_ o h w' :
  allocate by_ o w = (h, w') →
  global_m_file_ w' = global_m_file_ w
  ∧ partition_files w' = partition_files w
  ∧ stdout w' = stdout w
  ∧ deref (Some h) w' = Ok (h, o)
  ∧ ∀ h' r, deref (Some h') w = Ok r → deref (Some h') w' = Ok r.
Proof.
  intros E.
  assert (h = (allocate by_ o w).1) as -> by (by rewrite E).
  assert (w' = (allocate by_ o w).2) as -> by (by rewrite E).
  split_and!; try done.
  - apply deref_allocate_eq.
  - intros h' r. apply deref_allocate_ne.
Qed.

(** An assignment through a pointer: cells of another type are not it. *)
Lemma store_inv h o o0 :
  deref (Some h) w = Ok (h, o0) →
  global_m_file_ (store h o w) = global_m_file_ w
  ∧ partition_files (store h o w) = partition_files w
  ∧ stdout (store h o w) = stdout w
  ∧ deref (Some h) (store h o w) = Ok (h, o)
  ∧ ∀ h' o', deref (Some h') w = Ok (h', o') → kind_of o' ≠ kind_of o0 →
             deref (Some h') (store h o w) = Ok (h', o').
Proof.
  intros D. split_and!; try done.
  - by eapply deref_store_eq.
  - intros h' o' D' Hk. rewrite deref_store_ne; [done|].
    intros ->. rewrite D in D'. congruence.
Qed.

(** A successful release, seen from outside. *)
Lemma release_inv by_ k h w' :
  release by_ k h w = Ok w' →
  alive w h
  ∧ memory w' = delete h (memory w)
  ∧ mem_events w' = mem_events w ++ [Released by_ k h]
  ∧ global_m_file_ w' = global_m_file_ w
  ∧ stdout w' = stdout w
  ∧ partition_files w' = partition_files w.
Proof.
  unfold release, alive. destruct (memory w !! h) as [c|]; [|discriminate].
  case_bool_decide; [|discriminate].
  intros [= <-]. split_and!; eauto.
Qed.
End memory_facts.

#[local] Arguments allocate : simpl never.
#[local] Arguments store : simpl never.
#[local] Arguments deref : simpl never.
#[local] Arguments release : simpl never.
#[local] Arguments alias_staged : simpl never.

(** ** Symbolic execution of the methods *)

Ltac unfold_methods :=
  unfold Init, get, get_twice, construct, attempt, deref_table, deref_inbox,
    deref_int_array, n_attributes, local_n_entries, local_n_entries_own,
    write_values, all_gather, send, recv,
    MemoryMappedFile.UniqueConstruct, MemoryMappedFile.ConstructArray,
    bind, inspect, update, member, assign, lift_result, ret, fail, new_,
    Table_Init.

(** Rewrite with what is known of the worlds met so far. *)
Ltac known :=
  repeat (cbn;
    match goal with
    | H : global_m_file_ ?w = _ |- context [global_m_file_ ?w] => rewrite H
    | H : partition_files ?w = _ |- context [partition_files ?w] => rewrite H
    | H : deref ?p ?w = _ |- context [deref ?p ?w] => rewrite H
    | |- context [global_m_file_ (store ?h ?o ?w)] =>
        rewrite (global_m_file_store w h o)
    | |- context [partition_files (store ?h ?o ?w)] =>
        rewrite (partition_files_store w h o)
    end); cbn.

(** Name the cell and the world of the next allocation. *)
Ltac fresh_cell h w' :=
  match goal with
  | |- context [allocate ?a ?o ?w] =>
      let E := fresh "E" in
      destruct (allocate a o w) as [h w'] eqn:E;
      apply allocate_inv in E as (? & ? & ? & ? & ?)
  end.

(** Name the world of the next assignment through a pointer. *)
Ltac stored w' :=
  match goal with
  | D : deref (Some ?h) ?w = Ok (?h, ?o0) |- context [store ?h ?o ?w] =>
      let S := fresh "S" in
      pose proof (store_inv w h o o0 D) as S;
      set (w' := store h o w) in *;
      destruct S as (? & ? & ? & ? & ?)
  end.

(** Carry what the old world's pointers read over to the new world. *)
Ltac carry :=
  repeat match goal with
  | K : ∀ h' r, deref (Some h') ?w = Ok r → deref (Some h') ?w' = Ok r,
    D : deref (Some ?h) ?w = Ok ?r |- _ =>
      lazymatch goal with
      | _ : deref (Some h) w' = _ |- _ => fail
      | _ => pose proof (K _ _ D)
      end
  | K : ∀ h' o', deref (Some h') ?w = Ok (h', o') → kind_of o' ≠ _ →
                 deref (Some h') ?w' = Ok (h', o'),
    D : deref (Some ?h) ?w = Ok (?h, ?o) |- _ =>
      lazymatch goal with
      | _ : deref (Some h) w' = _ |- _ => fail
      | _ => pose proof (K _ _ D ltac:(discriminate))
      end
  end.

(** ** [Init] *)

(** With an arena, [Init] runs up to the all-gather, to which it brings the
    entry count of the partition it loaded, and finishes after it. *)
Lemma Init_with_arena t0 w f c :
  global_m_file_ w = true →
  ∃ k, Init f c {| this := t0; world := w |}
       = AllGather c (Table.n_entries (partition_files w f)) k
     ∧ ∀ values, length values = Z.to_nat (comm_size c) →
         ∃ s, k values = Return (tt, s) ∧ Init_post t0 w f c values s.
Proof.
  intros Hm. unfold_methods. known.
  fresh_cell h1 w1. known.
  stored w2. carry. known.
  fresh_cell h3 w3. carry. known.
  fresh_cell h4 w4. carry. known.
  stored w5. carry. known.
  fresh_cell h6 w6. carry. known.
  eexists. split; [reflexivity|].
  intros values Hlen. cbn. known.
  rewrite bool_decide_true by (rewrite length_replicate; lia).
  rewrite drop_ge, app_nil_r by (rewrite length_replicate; lia).
  stored w7. carry.
  eexists. split; [reflexivity|].
  split; cbn; eauto; try congruence.
  all: change (store h6 (ObjIntArray values) w6) with w7; congruence.
Qed.

(** Without an arena, [Init] dereferences the null [global_m_file_] when
    it constructs the outbox. *)
Lemma Init_without_arena t0 w f c :
  global_m_file_ w = false →
  Init f c {| this := t0; world := w |} = Crash NullDereference.
Proof.
  intros Hm. unfold_methods. known.
  fresh_cell h1 w1. known. reflexivity.
Qed.

Lemma length_gathered c v peers :
  length (gathered c v peers) = Z.to_nat (comm_size c).
Proof. unfold gathered. by rewrite length_fmap, length_seqZ. Qed.

(** Running [Init] to its end: the state is the one after the all-gather
    of [gathered]. *)
Lemma Init_finished t0 w f c peers pending s tr :
  exec peers pending (Init f c {| this := t0; world := w |})
  = (Finished (tt, s), tr) →
  Init_post t0 w f c
    (gathered c (Table.n_entries (partition_files w f)) peers) s.
Proof.
  destruct (global_m_file_ w) eqn:Hm.
  - destruct (Init_with_arena t0 w f c Hm) as (k & -> & Hk).
    destruct (Hk _ (length_gathered c (Table.n_entries (partition_files w f))
                                     peers)) as (s1 & Hs1 & Hpost).
    cbn. rewrite Hs1. cbn. intros [= <- _]. exact Hpost.
  - rewrite Init_without_arena by done. discriminate.
Qed.

(** ** [Save] *)

(** C9. [Save] is a placeholder.  For every state of the table, of the
    memory and of the partition files, and for every file name, the call
    returns at once with the very same state: no member changes (owned
    table, mailboxes, entry counts, tree), no cell of memory changes,
    nothing is written to any file, and no communicator is used. *)
Theorem Save_is_a_no_op (file_name : string) (s : state) :
  Save file_name s = Return (tt, s)
  ∧ ∀ peers pending,
      exec peers pending (Save file_name s) = (Finished (tt, s), []).
Proof. split; [|intros peers pending]; reflexivity. Qed.

(** ** [IsIndexed] and [IndexData] *)

(** C1, as stated, fails: on the process of rank 0 of a job of four, with
    ten points each, [Init] completes, [IndexData] returns, and after it
    [IsIndexed()] is still false and [get_tree()] still null. *)
Lemma IndexData_does_not_index :
  let job := let* _ := Init "points.csv" (outbox_comm 0 4) in
             let* _ := IndexData example_metric 1 in
             member (λ self, (IsIndexed self, get_tree self)) in
  returned (exec (λ _, 10) [] (job (constructed (example_world 10)))).1
  = Some (false, None).
Proof. vm_compute. reflexivity. Qed.

(** C1, amended.  On every table on which [Init] has completed,
    [IsIndexed()] is false before [IndexData] is called.  [IndexData] has
    an empty body: it always returns and leaves the table and the world as
    they are, so after it [IsIndexed()] is false still and [get_tree()]
    returns null. *)
Theorem IndexData_is_a_placeholder
    (w : World) (file_name : string) (c : communicator)
    (peers : Z → Z) (pending : list envelope) (s : state)
    (tr : list io_event) :
  exec peers pending (Init file_name c (constructed w))
  = (Finished (tt, s), tr) →
  IsIndexed (this s) = false
  ∧ ∀ metric_in sample_probability_in,
      IndexData metric_in sample_probability_in s = Return (tt, s)
      ∧ IsIndexed (this s) = false
      ∧ get_tree (this s) = None.
Proof.
  intros Hrun. apply Init_finished in Hrun. destruct Hrun as [Htree _ _ _ _ _ _ _ _].
  cbn in Htree.
  assert (IsIndexed (this s) = false) as Hidx.
  { unfold IsIndexed. rewrite Htree. reflexivity. }
  split; [exact Hidx|]. intros metric_in p. split_and!; [reflexivity|exact Hidx|exact Htree].
Qed.

Lemma IndexData_is_a_placeholder_witness :
  exec (λ _, 10) [] (Init "points.csv" (outbox_comm 2 4)
                          (constructed (example_world 10)))
  = (Finished (tt, example_table), example_Init_trace)
  ∧ IsIndexed (this example_table) = false
  ∧ ∀ metric_in sample_probability_in,
      IndexData metric_in sample_probability_in example_table
      = Return (tt, example_table)
      ∧ IsIndexed (this example_table) = false
      ∧ get_tree (this example_table) = None.
Proof.
  assert (exec (λ _, 10) [] (Init "points.csv" (outbox_comm 2 4)
                                  (constructed (example_world 10)))
          = (Finished (tt, example_table), example_Init_trace)) as Hrun
    by (vm_compute; reflexivity).
  split; [exact Hrun|].
  exact (IndexData_is_a_placeholder _ _ _ _ _ _ _ Hrun).
Defined.

(** ** [local_n_entries] *)

(** C4. For every rank at or above the size of the table's communicator
    group, [local_n_entries(rank)] reports the invalid rank (it prints the
    rank and the limit) and returns -1 without reading the array of entry
    counts; -1 is the entry count of no table. *)
Theorem local_n_entries_rejects_invalid_rank (s : state) (rank_in : Z) :
  table_outbox_group_comm_size_ (this s) ≤ rank_in →
  local_n_entries rank_in s
  = Return (-1, {| this := this s;
                   world := print (InvalidRank rank_in
                                     (table_outbox_group_comm_size_ (this s)))
                                  (world s) |})
  ∧ ∀ tb, Table.n_entries tb ≠ -1.
Proof.
  intros Hrank. split.
  - unfold_methods. cbn.
    destruct (Z.leb_spec (table_outbox_group_comm_size_ (this s)) rank_in);
      [reflexivity|lia].
  - intros tb. unfold Table.n_entries. lia.
Qed.

Lemma local_n_entries_rejects_invalid_rank_witness :
  table_outbox_group_comm_size_ (this example_table) ≤ 4
  ∧ local_n_entries 4 example_table
    = Return (-1, {| this := this example_table;
                     world := print (InvalidRank 4 4)
                                    (world example_table) |}).
Proof.
  assert (table_outbox_group_comm_size_ (this example_table) ≤ 4) as Hrank
    by (vm_compute; discriminate).
  split; [exact Hrank|].
  exact (proj1 (local_n_entries_rejects_invalid_rank example_table 4 Hrank)).
Defined.

(** ** [get] *)

Lemma exec_silent {A : Type} (peers : Z → Z) (pending : list envelope)
    (p : proc A) :
  silent p → (exec peers pending p).2 = [].
Proof. destruct p; cbn; done. Qed.

(** The branch of [get] for a point of the calling process. *)
Lemma get_local c_out c_in point_id entry s :
  get c_out c_in (comm_rank c_out) point_id entry s
  = (let* p := member owned_table_ in
     let* (h, tb) := deref_table p in
     lift_result (Table.get h tb point_id)) s.
Proof. unfold get. rewrite bool_decide_true by done. reflexivity. Qed.

(** The branch of [get] for a point of another process. *)
Lemma get_remote c_out c_in requested_rank point_id entry s :
  comm_rank c_out ≠ requested_rank →
  get c_out c_in requested_rank point_id entry s
  = Send c_out requested_rank REQUEST_POINT_FROM_TABLE_OUTBOX
         {| source_rank_ := comm_rank c_out; point_id_ := point_id |}
         (Recv c_in (comm_rank c_out) RECEIVE_POINT_FROM_TABLE_INBOX
               (λ _, alias_staged requested_rank point_id s)).
Proof. intros Hne. unfold get. rewrite bool_decide_false by done. reflexivity. Qed.

(** Aliasing the slot uses no communicator, changes nothing, and can only
    stop on a bad pointer. *)
Lemma alias_staged_cases requested_rank point_id s :
  (∃ point, alias_staged requested_rank point_id s = Return (point, s))
  ∨ (∃ e, alias_staged requested_rank point_id s = Crash e
          ∧ e ≠ IndexOutOfRange).
Proof.
  unfold alias_staged. unfold_methods. cbn.
  destruct (deref (table_inbox_ (this s)) (world s)) as [[hi oi]|e] eqn:Di;
    cbn; [|right; eexists; split; [done|]].
  - destruct oi; cbn; try (right; eexists; split; [done|discriminate]).
    destruct (deref (owned_table_ (this s)) (world s)) as [[ht ot]|e] eqn:Dt;
      cbn; [|right; eexists; split; [done|]].
    + destruct ot; cbn; try (right; eexists; split; [done|discriminate]).
      left. eexists. destruct s. reflexivity.
    + destruct (owned_table_ (this s)) as [h|]; unfold deref in Dt;
        [destruct (memory (world s) !! h)|]; congruence.
  - destruct (table_inbox_ (this s)) as [h|]; unfold deref in Di;
      [destruct (memory (world s) !! h)|]; congruence.
Qed.

Lemma alias_staged_silent requested_rank point_id s :
  silent (alias_staged requested_rank point_id s).
Proof.
  destruct (alias_staged_cases requested_rank point_id s)
    as [[point ->]|(e & -> & _)]; exact I.
Qed.

Lemma alias_staged_returns requested_rank point_id s hi ib ht tb :
  table_inbox_ (this s) = Some hi →
  deref (Some hi) (world s) = Ok (hi, ObjInbox ib) →
  owned_table_ (this s) = Some ht →
  deref (Some ht) (world s) = Ok (ht, ObjTable tb) →
  alias_staged requested_rank point_id s
  = Return (Alias (TableInbox.get_point hi ib requested_rank point_id)
                  (Table.n_attributes tb), s).
Proof.
  intros Hi Di Ht Dt. unfold alias_staged. unfold_methods. cbn.
  rewrite Hi, Di. cbn. rewrite Ht, Dt. cbn. destruct s. reflexivity.
Qed.

(** A point of the calling process is read from the owned table. *)
Lemma get_local_reads_table c_out c_in requested_rank point_id entry s h tb :
  comm_rank c_out = requested_rank →
  owned_table_ (this s) = Some h →
  deref (Some h) (world s) = Ok (h, ObjTable tb) →
  get c_out c_in requested_rank point_id entry s
  = match Table.get h tb point_id with
    | Ok point => Return (point, s)
    | Fatal e => Crash e
    end.
Proof.
  intros <- Hp Hd. rewrite get_local. unfold_methods. cbn.
  rewrite Hp, Hd. cbn.
  destruct (Table.get h tb point_id); destruct s; reflexivity.
Qed.

(** C3. When the requested rank is the calling process's own rank, [get]
    uses no communicator: it neither sends nor receives, whatever is
    waiting, and what it returns is what the [get] of the owned table
    returns for that point. *)
Theorem get_of_own_point_is_local
    (c_out c_in : communicator) (requested_rank point_id : Z)
    (entry : DenseConstPoint) (s : state) :
  comm_rank c_out = requested_rank →
  silent (get c_out c_in requested_rank point_id entry s)
  ∧ (∀ peers pending,
       (exec peers pending
             (get c_out c_in requested_rank point_id entry s)).2 = [])
  ∧ ∀ h tb,
      owned_table_ (this s) = Some h →
      deref (Some h) (world s) = Ok (h, ObjTable tb) →
      get c_out c_in requested_rank point_id entry s
      = match Table.get h tb point_id with
        | Ok point => Return (point, s)
        | Fatal e => Crash e
        end.
Proof.
  intros <-. rewrite get_local.
  assert (silent ((let* p := member owned_table_ in
                   let* (h, tb) := deref_table p in
                   lift_result (Table.get h tb point_id)) s)) as Hsilent.
  { unfold_methods. cbn.
    destruct (deref (owned_table_ (this s)) (world s)) as [[h o]|e];
      cbn; [|exact I].
    destruct o; cbn; try exact I.
    destruct (Table.get h tb point_id); exact I. }
  split_and!.
  - exact Hsilent.
  - intros peers pending. by apply exec_silent.
  - intros h tb Hp Hd. rewrite <- (get_local c_out c_in point_id entry s).
    by apply get_local_reads_table.
Qed.

Lemma get_of_own_point_is_local_witness :
  silent (get (outbox_comm 2 4) (inbox_comm 2 4) 2 7 no_entry example_table)
  ∧ (∀ peers pending,
       (exec peers pending
             (get (outbox_comm 2 4) (inbox_comm 2 4) 2 7 no_entry
                  example_table)).2 = [])
  ∧ ∀ h tb,
      owned_table_ (this example_table) = Some h →
      deref (Some h) (world example_table) = Ok (h, ObjTable tb) →
      get (outbox_comm 2 4) (inbox_comm 2 4) 2 7 no_entry example_table
      = match Table.get h tb 7 with
        | Ok point => Return (point, example_table)
        | Fatal e => Crash e
        end.
Proof.
  apply (get_of_own_point_is_local (outbox_comm 2 4) (inbox_comm 2 4) 2 7
           no_entry example_table).
  reflexivity.
Defined.

(** The point of index 7 of the process of rank 2, fetched by itself: an
    alias of the column of its own table, and no traffic. *)
Example get_of_own_point_7 :
  exec (λ _, 10) [] (get (outbox_comm 2 4) (inbox_comm 2 4) 2 7 no_entry
                         example_table)
  = (Finished (Alias (TableColumn 1%positive 7) 3, example_table), [])
  ∧ read_alias (world example_table) (Alias (TableColumn 1%positive 7) 3)
    = Some [21; 22; 23].
Proof. split; vm_compute; reflexivity. Qed.

(** What running the remote branch gives: blocked right after the request
    when no acknowledgment from the caller's own rank is waiting; the
    request, the receipt, and then the alias or a bad pointer otherwise. *)
Lemma exec_get_remote c_out c_in requested_rank point_id entry s
    peers pending :
  comm_rank c_out ≠ requested_rank →
  let request :=
    Sent c_out requested_rank REQUEST_POINT_FROM_TABLE_OUTBOX
         {| source_rank_ := comm_rank c_out; point_id_ := point_id |} in
  exec peers pending (get c_out c_in requested_rank point_id entry s)
  = match take_matching c_in (comm_rank c_out)
                        RECEIVE_POINT_FROM_TABLE_INBOX pending with
    | None =>
        (Blocked c_in (comm_rank c_out) RECEIVE_POINT_FROM_TABLE_INBOX,
         [request])
    | Some (v, rest) =>
        ((exec peers rest (alias_staged requested_rank point_id s)).1,
         [request;
          Received c_in (comm_rank c_out) RECEIVE_POINT_FROM_TABLE_INBOX v])
    end.
Proof.
  intros Hne request. rewrite get_remote by done. cbn.
  destruct (take_matching c_in (comm_rank c_out)
                          RECEIVE_POINT_FROM_TABLE_INBOX pending)
    as [[v rest]|]; [|reflexivity].
  pose proof (exec_silent peers rest _
                (alias_staged_silent requested_rank point_id s)) as Htr.
  destruct (exec peers rest (alias_staged requested_rank point_id s))
    as [o tr]. cbn in Htr. subst tr. reflexivity.
Qed.

(** C2, as stated, fails: the process of rank 2 asks for point 7 of rank 0.
    With the acknowledgment of rank 0, the owner, waiting in its queue it
    stays blocked after the request, on a message of rank 2; with an
    acknowledgment of its own rank 2 it goes through. *)
Lemma get_does_not_wait_for_the_owner :
  exec (λ _, 10) [acknowledgment 0]
       (get (outbox_comm 2 4) (inbox_comm 2 4) 0 7 no_entry example_table)
  = (Blocked (inbox_comm 2 4) 2 RECEIVE_POINT_FROM_TABLE_INBOX,
     [example_request 7])
  ∧ exec (λ _, 10) [acknowledgment 2]
         (get (outbox_comm 2 4) (inbox_comm 2 4) 0 7 no_entry example_table)
    = (Finished (Alias (InboxSlot 3%positive 0 7) 3, example_table),
       [example_request 7;
        Received (inbox_comm 2 4) 2 RECEIVE_POINT_FROM_TABLE_INBOX 0]).
Proof. split; vm_compute; reflexivity. Qed.

(** C2, amended.  When the requested rank differs from the calling
    process's rank, [get] builds the request (own rank, point id), sends
    it to the requested rank on the outbox communicator with tag
    REQUEST_POINT_FROM_TABLE_OUTBOX, then receives on the inbox
    communicator, with tag RECEIVE_POINT_FROM_TABLE_INBOX, from the calling
    process's OWN rank, and blocks there as long as no such message is
    waiting; only after the receipt does it alias the inbox's slot of
    (requested rank, point id), with the attribute count of the owned
    table, into the out-parameter, using no communicator any more. *)
Theorem get_of_remote_point_requests_then_waits
    (c_out c_in : communicator) (requested_rank point_id : Z)
    (entry : DenseConstPoint) (s : state) :
  comm_rank c_out ≠ requested_rank →
  ∃ k,
    get c_out c_in requested_rank point_id entry s
    = Send c_out requested_rank REQUEST_POINT_FROM_TABLE_OUTBOX
           {| source_rank_ := comm_rank c_out; point_id_ := point_id |}
           (Recv c_in (comm_rank c_out) RECEIVE_POINT_FROM_TABLE_INBOX k)
    ∧ (∀ dummy, silent (k dummy))
    ∧ (∀ dummy hi ib ht tb,
         table_inbox_ (this s) = Some hi →
         deref (Some hi) (world s) = Ok (hi, ObjInbox ib) →
         owned_table_ (this s) = Some ht →
         deref (Some ht) (world s) = Ok (ht, ObjTable tb) →
         k dummy
         = Return (Alias (TableInbox.get_point hi ib requested_rank point_id)
                         (Table.n_attributes tb), s))
    ∧ (∀ peers pending,
         take_matching c_in (comm_rank c_out)
                       RECEIVE_POINT_FROM_TABLE_INBOX pending = None →
         exec peers pending (get c_out c_in requested_rank point_id entry s)
         = (Blocked c_in (comm_rank c_out) RECEIVE_POINT_FROM_TABLE_INBOX,
            [Sent c_out requested_rank REQUEST_POINT_FROM_TABLE_OUTBOX
                  {| source_rank_ := comm_rank c_out;
                     point_id_ := point_id |}])).
Proof.
  intros Hne. exists (λ _, alias_staged requested_rank point_id s).
  split_and!.
  - by apply get_remote.
  - intros _. apply alias_staged_silent.
  - intros _ hi ib ht tb. apply alias_staged_returns.
  - intros peers pending Hnone.
    rewrite exec_get_remote by done. cbn. rewrite Hnone. reflexivity.
Qed.

Lemma get_of_remote_point_requests_then_waits_witness :
  ∃ k,
    get (outbox_comm 2 4) (inbox_comm 2 4) 0 7 no_entry example_table
    = Send (outbox_comm 2 4) 0 REQUEST_POINT_FROM_TABLE_OUTBOX
           {| source_rank_ := 2; point_id_ := 7 |}
           (Recv (inbox_comm 2 4) 2 RECEIVE_POINT_FROM_TABLE_INBOX k)
    ∧ ∀ dummy, silent (k dummy).
Proof.
  destruct (get_of_remote_point_requests_then_waits
              (outbox_comm 2 4) (inbox_comm 2 4) 0 7 no_entry example_table)
    as (k & Hget & Hsilent & _).
  - cbn. lia.
  - exists k. split; [exact Hget|exact Hsilent].
Defined.

(** C8. The cache lookup of [get] is the constant false, so a point of
    another process is never served from a cache: in every state of the
    table and of its inbox, the run of [get] starts with the request and
    either stays blocked on the acknowledgment or receives it; and two
    fetches of the same point in a row that both return have exchanged
    the request and the acknowledgment twice. *)
Theorem cache_lookup_is_never_taken
    (c_out c_in : communicator) (requested_rank point_id : Z)
    (entry : DenseConstPoint) (s : state) :
  comm_rank c_out ≠ requested_rank →
  let request :=
    Sent c_out requested_rank REQUEST_POINT_FROM_TABLE_OUTBOX
         {| source_rank_ := comm_rank c_out; point_id_ := point_id |} in
  let receipt :=
    Received c_in (comm_rank c_out) RECEIVE_POINT_FROM_TABLE_INBOX in
  (∀ peers pending o tr,
     exec peers pending (get c_out c_in requested_rank point_id entry s)
     = (o, tr) →
     (o = Blocked c_in (comm_rank c_out) RECEIVE_POINT_FROM_TABLE_INBOX
      ∧ tr = [request])
     ∨ ∃ v, tr = [request; receipt v])
  ∧ (∀ peers pending point s' tr,
       exec peers pending
            (get_twice c_out c_in requested_rank point_id entry s)
       = (Finished (point, s'), tr) →
       ∃ v1 v2, tr = [request; receipt v1; request; receipt v2]).
Proof.
  intros Hne request receipt. split.
  - intros peers pending o tr. rewrite exec_get_remote by done. cbn.
    destruct (take_matching c_in (comm_rank c_out)
                            RECEIVE_POINT_FROM_TABLE_INBOX pending)
      as [[v rest]|]; intros [= <- <-]; [right; by exists v|left; done].
  - intros peers pending point s' tr.
    unfold get_twice, bind. rewrite get_remote by done. cbn.
    destruct (take_matching c_in (comm_rank c_out)
                            RECEIVE_POINT_FROM_TABLE_INBOX pending)
      as [[v1 rest1]|]; [|discriminate].
    destruct (alias_staged_cases requested_rank point_id s)
      as [[first ->]|(e & -> & _)]; cbn; [|discriminate].
    pose proof (exec_get_remote c_out c_in requested_rank point_id first s
                  peers rest1 Hne) as Hsecond. cbn in Hsecond.
    rewrite Hsecond. clear Hsecond.
    destruct (take_matching c_in (comm_rank c_out)
                            RECEIVE_POINT_FROM_TABLE_INBOX rest1)
      as [[v2 rest2]|]; [|discriminate].
    intros [= _ <-]. by exists v1, v2.
Qed.

Lemma cache_lookup_is_never_taken_witness :
  comm_rank (outbox_comm 2 4) ≠ 0
  ∧ ∃ v1 v2,
      (exec (λ _, 10) [acknowledgment 2; acknowledgment 2]
            (get_twice (outbox_comm 2 4) (inbox_comm 2 4) 0 7 no_entry
                       example_table)).2
      = [example_request 7;
         Received (inbox_comm 2 4) 2 RECEIVE_POINT_FROM_TABLE_INBOX v1;
         example_request 7;
         Received (inbox_comm 2 4) 2 RECEIVE_POINT_FROM_TABLE_INBOX v2].
Proof.
  assert (comm_rank (outbox_comm 2 4) ≠ 0) as Hne by (cbn; lia).
  split; [exact Hne|].
  destruct (proj2 (cache_lookup_is_never_taken
                     (outbox_comm 2 4) (inbox_comm 2 4) 0 7 no_entry
                     example_table Hne)
                  (λ _, 10) [acknowledgment 2; acknowledgment 2]
                  (Alias (InboxSlot 3%positive 0 7) 3) example_table
                  (exec (λ _, 10) [acknowledgment 2; acknowledgment 2]
                        (get_twice (outbox_comm 2 4) (inbox_comm 2 4) 0 7
                                   no_entry example_table)).2)
    as (v1 & v2 & Htr).
  - vm_compute. reflexivity.
  - exists v1, v2. exact Htr.
Defined.

(** Point 7 of rank 0 fetched twice in a row by rank 2, with two
    acknowledgments waiting: the second fetch asks again. *)
Example second_fetch_asks_again :
  (exec (λ _, 10) [acknowledgment 2; acknowledgment 2]
        (get_twice (outbox_comm 2 4) (inbox_comm 2 4) 0 7 no_entry
                   example_table)).2
  = [example_request 7;
     Received (inbox_comm 2 4) 2 RECEIVE_POINT_FROM_TABLE_INBOX 0;
     example_request 7;
     Received (inbox_comm 2 4) 2 RECEIVE_POINT_FROM_TABLE_INBOX 0].
Proof. vm_compute. reflexivity. Qed.

(** ** The destructor *)

(** Invert the run of one guarded block. *)
Ltac block_inv s :=
  let Hrun := fresh "Hrun" in
  intros Hrun;
  unfold destroy_table_outbox, destroy_table_inbox, destroy_local_n_entries,
    destroy_owned_table, destroy_global_tree in Hrun;
  unfold attempt, bind, inspect, update, member, assign, lift_result, ret,
    fail in Hrun;
  unfold MemoryMappedFile.DestroyPtr, MemoryMappedFile.Deallocate, delete_,
    home in *;
  destruct s as [[] w];
  cbn in *;
  repeat match type of Hrun with
  | context [match ?p with Some _ => _ | None => _ end] =>
      destruct p eqn:?; cbn in Hrun
  | context [if global_m_file_ ?w then _ else _] =>
      destruct (global_m_file_ w) eqn:?; cbn in Hrun
  | context [release ?a ?k ?h ?w] =>
      let E := fresh "E" in
      destruct (release a k h w) eqn:E; cbn in Hrun;
      [apply release_inv in E as (? & ? & ? & ? & ? & ?)|]
  end;
  try discriminate;
  injection Hrun as <-;
  split; cbn; unfold home; rewrite ?app_nil_r;
  repeat match goal with
         | H : global_m_file_ ?w = _ |- context [global_m_file_ ?w] =>
             rewrite H
         end;
  try congruence; try done.

Lemma destroy_table_outbox_inv s s1 :
  destroy_table_outbox s = Return (tt, s1) →
  block_effect table_outbox_ set_table_outbox_ KOutbox s s1.
Proof. block_inv s. Qed.

Lemma destroy_table_inbox_inv s s1 :
  destroy_table_inbox s = Return (tt, s1) →
  block_effect table_inbox_ set_table_inbox_ KInbox s s1.
Proof. block_inv s. Qed.

Lemma destroy_local_n_entries_inv s s1 :
  destroy_local_n_entries s = Return (tt, s1) →
  block_effect local_n_entries_ set_local_n_entries_ KIntArray s s1.
Proof. block_inv s. Qed.

Lemma destroy_owned_table_inv s s1 :
  destroy_owned_table s = Return (tt, s1) →
  block_effect owned_table_ set_owned_table_ KTable s s1.
Proof. block_inv s. Qed.

Lemma destroy_global_tree_inv s s1 :
  destroy_global_tree s = Return (tt, s1) →
  block_effect global_tree_ set_global_tree_ KTree s s1.
Proof. block_inv s. Qed.

Lemma bind_Return_inv {A B : Type} (m : M state A) (f : A → M state B) s r :
  bind m f s = Return r → ∃ a s1, m s = Return (a, s1) ∧ f a s1 = Return r.
Proof.
  unfold bind. destruct (m s) as [[a s1]| | | |]; cbn; try discriminate.
  intros H. by exists a, s1.
Qed.

Lemma run_blocks_cons_inv b rest s s' :
  run_blocks (b :: rest) s = Return (tt, s') →
  ∃ s1, b s = Return (tt, s1) ∧ run_blocks rest s1 = Return (tt, s').
Proof.
  cbn. intros H. apply bind_Return_inv in H as ([] & s1 & Hb & Hrest).
  by exists s1.
Qed.

(** The five states a successful teardown goes through. *)
Lemma destructor_inv s s' :
  destructor s = Return (tt, s') →
  ∃ s1 s2 s3 s4,
    block_effect table_outbox_ set_table_outbox_ KOutbox s s1
    ∧ block_effect table_inbox_ set_table_inbox_ KInbox s1 s2
    ∧ block_effect local_n_entries_ set_local_n_entries_ KIntArray s2 s3
    ∧ block_effect owned_table_ set_owned_table_ KTable s3 s4
    ∧ block_effect global_tree_ set_global_tree_ KTree s4 s'
    ∧ destroy_table_outbox s = Return (tt, s1)
    ∧ destroy_table_inbox s1 = Return (tt, s2)
    ∧ destroy_local_n_entries s2 = Return (tt, s3)
    ∧ destroy_owned_table s3 = Return (tt, s4)
    ∧ destroy_global_tree s4 = Return (tt, s').
Proof.
  unfold destructor, destructor_blocks. intros H.
  apply run_blocks_cons_inv in H as (s1 & H1 & H).
  apply run_blocks_cons_inv in H as (s2 & H2 & H).
  apply run_blocks_cons_inv in H as (s3 & H3 & H).
  apply run_blocks_cons_inv in H as (s4 & H4 & H).
  apply run_blocks_cons_inv in H as (s5 & H5 & H).
  cbn in H. injection H as <-.
  exists s1, s2, s3, s4. split_and!; try done.
  - by apply destroy_table_outbox_inv.
  - by apply destroy_table_inbox_inv.
  - by apply destroy_local_n_entries_inv.
  - by apply destroy_owned_table_inv.
  - by apply destroy_global_tree_inv.
Qed.

Lemma alive_before field set_field k s s1 x :
  block_effect field set_field k s s1 → alive (world s1) x → alive (world s) x.
Proof.
  intros [_ _ Hm _ _ _ _]. unfold alive. rewrite Hm.
  destruct (field (this s)) as [h|]; cbn; [|done].
  rewrite lookup_delete_is_Some. tauto.
Qed.

Lemma released_is_dead field set_field k s s1 h :
  block_effect field set_field k s s1 → field (this s) = Some h →
  ¬ alive (world s1) h.
Proof.
  intros [_ _ Hm _ _ _ _] Hf. unfold alive. rewrite Hm, Hf. cbn.
  rewrite lookup_delete_is_Some. tauto.
Qed.

Lemma destructor_events s s' :
  destructor s = Return (tt, s') →
  mem_events (world s') = mem_events (world s) ++ teardown_releases s.
Proof.
  intros H. apply destructor_inv in H
    as (s1 & s2 & s3 & s4 & E1 & E2 & E3 & E4 & E5 & _).
  destruct E1 as [T1 V1 _ _ A1 _ _], E2 as [T2 V2 _ _ A2 _ _],
    E3 as [T3 V3 _ _ A3 _ _], E4 as [T4 V4 _ _ A4 _ _], E5 as [T5 V5 _ _ A5 _ _].
  rewrite V5, V4, V3, V2, V1. unfold teardown_releases, home.
  rewrite T4, T3, T2, T1, A3, A2, A1. cbn.
  rewrite <- !app_assoc. reflexivity.
Qed.

Lemma destructor_nulls s s' :
  destructor s = Return (tt, s') →
  this s' = {| table_inbox_ := None; table_outbox_ := None; owned_table_ := None;
               local_n_entries_ := None; global_tree_ := None;
               global_tree_leaf_nodes_ := global_tree_leaf_nodes_ (this s);
               table_outbox_group_comm_size_ := table_outbox_group_comm_size_ (this s) |}.
Proof.
  intros H. apply destructor_inv in H
    as (s1 & s2 & s3 & s4 & E1 & E2 & E3 & E4 & E5 & _).
  destruct E1 as [T1 V1 _ _ A1 _ _], E2 as [T2 V2 _ _ A2 _ _],
    E3 as [T3 V3 _ _ A3 _ _], E4 as [T4 V4 _ _ A4 _ _], E5 as [T5 V5 _ _ A5 _ _].
  rewrite T5, T4, T3, T2, T1. reflexivity.
Qed.

Lemma run_blocks_cons b rest s s1 :
  b s = Return (tt, s1) → run_blocks (b :: rest) s = run_blocks rest s1.
Proof. intros H. cbn. unfold bind. rewrite H. reflexivity. Qed.

Lemma teardown_points s s' :
  destructor s = Return (tt, s') →
  ∀ n, ∃ s_n, run_blocks (take n destructor_blocks) s = Return (tt, s_n)
              ∧ ¬ inbox_outlives_partition s s_n.
Proof.
  intros H. apply destructor_inv in H
    as (s1 & s2 & s3 & s4 & E1 & E2 & E3 & E4 & E5 & R1 & R2 & R3 & R4 & R5).
  assert (table_inbox_ (this s1) = table_inbox_ (this s)) as Hi
    by (destruct E1 as [-> _ _ _ _ _ _]; reflexivity).
  assert (owned_table_ (this s3) = owned_table_ (this s)) as Ht.
  { destruct E1 as [T1 _ _ _ _ _ _], E2 as [T2 _ _ _ _ _ _], E3 as [T3 _ _ _ _ _ _].
    rewrite T3, T2, T1. reflexivity. }
  assert (∀ x, alive (world s3) x → alive (world s2) x) as B3 by (intros x; by eapply alive_before).
  assert (∀ x, alive (world s2) x → alive (world s1) x) as B2 by (intros x; by eapply alive_before).
  assert (∀ x, alive (world s1) x → alive (world s) x) as B1 by (intros x; by eapply alive_before).
  assert (∀ x, alive (world s4) x → alive (world s3) x) as B4 by (intros x; by eapply alive_before).
  assert (∀ x, alive (world s') x → alive (world s4) x) as B5 by (intros x; by eapply alive_before).
  assert (∀ ht, owned_table_ (this s) = Some ht → alive (world s3) ht) as Hta.
  { intros ht Hht. destruct E4 as [_ _ _ Ha _ _ _]. apply Ha. by rewrite Ht. }
  assert (∀ hi, table_inbox_ (this s) = Some hi → ¬ alive (world s2) hi) as Hid.
  { intros hi Hhi. eapply released_is_dead; [exact E2|]. by rewrite Hi. }
  intros n. unfold destructor_blocks.
  destruct n as [|[|[|[|[|n]]]]]; cbn [take].
  - exists s. split; [reflexivity|]. intros [_ (ht & Hht & Hdead)]. naive_solver.
  - exists s1. rewrite (run_blocks_cons _ _ _ _ R1).
    split; [reflexivity|]. intros [_ (ht & Hht & Hdead)]. naive_solver.
  - exists s2.
    rewrite (run_blocks_cons _ _ _ _ R1), (run_blocks_cons _ _ _ _ R2).
    split; [reflexivity|]. intros [_ (ht & Hht & Hdead)]. naive_solver.
  - exists s3.
    rewrite (run_blocks_cons _ _ _ _ R1), (run_blocks_cons _ _ _ _ R2),
      (run_blocks_cons _ _ _ _ R3).
    split; [reflexivity|]. intros [_ (ht & Hht & Hdead)]. naive_solver.
  - exists s4.
    rewrite (run_blocks_cons _ _ _ _ R1), (run_blocks_cons _ _ _ _ R2),
      (run_blocks_cons _ _ _ _ R3), (run_blocks_cons _ _ _ _ R4).
    split; [reflexivity|]. intros [(hi & Hhi & Halive) _]. naive_solver.
  - exists s'. rewrite take_nil.
    rewrite (run_blocks_cons _ _ _ _ R1), (run_blocks_cons _ _ _ _ R2),
      (run_blocks_cons _ _ _ _ R3), (run_blocks_cons _ _ _ _ R4),
      (run_blocks_cons _ _ _ _ R5).
    split; [reflexivity|]. intros [(hi & Hhi & Halive) _]. naive_solver.
Qed.

Lemma elem_of_guarded_release e by_ k p :
  e ∈ guarded_release by_ k p → ∃ h, p = Some h ∧ e = Released by_ k h.
Proof.
  destruct p as [h|]; cbn.
  - intros ->%list_elem_of_singleton. by exists h.
  - by intros ?%elem_of_nil.
Qed.

(** C6, as stated, fails: the teardown of the example table releases the
    outbox first and the inbox second. *)
Lemma destructor_releases_the_outbox_first :
  destructor example_table = Return (tt, example_torn_down)
  ∧ released_kinds (events_since example_table example_torn_down)
    = [KOutbox; KInbox; KIntArray; KTable]
  ∧ released_kinds (events_since example_table example_torn_down)
    ≠ [KInbox; KOutbox; KIntArray; KTable].
Proof. split_and!; [vm_compute; reflexivity..|vm_compute; discriminate]. Qed.

(** C6, amended.  A teardown that runs to its end releases the components
    whose pointers are set in the order: outbox, inbox, array of entry
    counts, owned table, tree.  At every point of the teardown (after any
    number of its five blocks) the inbox is not allocated any more unless
    the owned partition still is. *)
Theorem destructor_releases_in_order (s s' : state) :
  destructor s = Return (tt, s') →
  mem_events (world s') = mem_events (world s) ++ teardown_releases s
  ∧ ∀ n, ∃ s_n,
      run_blocks (take n destructor_blocks) s = Return (tt, s_n)
      ∧ ¬ inbox_outlives_partition s s_n.
Proof.
  intros Hrun. split.
  - by apply destructor_events.
  - by eapply teardown_points.
Qed.

Lemma destructor_releases_in_order_witness :
  mem_events (world example_torn_down)
  = mem_events (world example_table) ++ teardown_releases example_table
  ∧ ∀ n, ∃ s_n,
      run_blocks (take n destructor_blocks) example_table = Return (tt, s_n)
      ∧ ¬ inbox_outlives_partition example_table s_n.
Proof.
  apply (destructor_releases_in_order example_table example_torn_down).
  vm_compute. reflexivity.
Defined.

(** C10. Every release of the destructor is guarded: in a teardown that
    runs to its end, whatever is released is what a member that was not
    null pointed to, and all five pointers (outbox, inbox, entry counts,
    owned table, tree) are null afterwards.  The destructor of a table
    that was only constructed releases nothing, touches nothing and
    cannot fail, with or without an arena. *)
Theorem destructor_is_guarded (s s' : state) :
  destructor s = Return (tt, s') →
  (table_outbox_ (this s') = None
   ∧ table_inbox_ (this s') = None
   ∧ local_n_entries_ (this s') = None
   ∧ owned_table_ (this s') = None
   ∧ global_tree_ (this s') = None)
  ∧ (∀ e, e ∈ events_since s s' →
          ∃ by_ k h, e = Released by_ k h ∧ pointer_of k (this s) = Some h)
  ∧ ∀ w, destructor (constructed w) = Return (tt, constructed w).
Proof.
  intros Hrun. split_and!.
  1-5: rewrite (destructor_nulls s s' Hrun); reflexivity.
  - intros e. unfold events_since.
    rewrite (destructor_events s s' Hrun), drop_app_length.
    unfold teardown_releases. rewrite !elem_of_app.
    intros Hin. decompose [or] Hin; clear Hin;
      match goal with
      | H : e ∈ guarded_release _ _ _ |- _ =>
          apply elem_of_guarded_release in H as (h & Hp & ->)
      end;
      do 3 eexists; (split; [reflexivity|exact Hp]).
  - intros w. reflexivity.
Qed.

Lemma destructor_is_guarded_witness :
  (table_outbox_ (this example_torn_down) = None
   ∧ table_inbox_ (this example_torn_down) = None
   ∧ local_n_entries_ (this example_torn_down) = None
   ∧ owned_table_ (this example_torn_down) = None
   ∧ global_tree_ (this example_torn_down) = None)
  ∧ (∀ e, e ∈ events_since example_table example_torn_down →
          ∃ by_ k h, e = Released by_ k h
                     ∧ pointer_of k (this example_table) = Some h)
  ∧ ∀ w, destructor (constructed w) = Return (tt, constructed w).
Proof.
  apply (destructor_is_guarded example_table example_torn_down).
  vm_compute. reflexivity.
Defined.

(** ** The entry counts of a group *)

(** Reading an entry count of a valid rank. *)
Lemma local_n_entries_reads s h counts rank_in v :
  local_n_entries_ (this s) = Some h →
  deref (Some h) (world s) = Ok (h, ObjIntArray counts) →
  0 ≤ rank_in < table_outbox_group_comm_size_ (this s) →
  counts !! Z.to_nat rank_in = Some v →
  local_n_entries rank_in s = Return (v, s).
Proof.
  intros Hp Hd Hrank Hv. unfold_methods. cbn.
  destruct (Z.leb_spec (table_outbox_group_comm_size_ (this s)) rank_in);
    [lia|].
  cbn. rewrite Hp, Hd. cbn.
  destruct (Z.ltb_spec rank_in 0); [lia|].
  rewrite Hv. destruct s. reflexivity.
Qed.

Lemma local_n_entries_own_reads s h tb :
  owned_table_ (this s) = Some h →
  deref (Some h) (world s) = Ok (h, ObjTable tb) →
  local_n_entries_own s = Return (Table.n_entries tb, s).
Proof.
  intros Hp Hd. unfold_methods. cbn. rewrite Hp, Hd. cbn.
  destruct s. reflexivity.
Qed.

(** After [Init], the table reports the gathered values rank by rank. *)
Lemma entry_counts_after_Init t0 w f size rank values s :
  Init_post t0 w f (group_comm size rank) values s →
  length values = size →
  entry_counts size s = Some values.
Proof.
  intros [_ Hsize (h & Hp & Hd) _ _ _ _ _ _] Hlen. cbn in Hsize.
  unfold entry_counts. apply mapM_Some_2.
  apply Forall2_same_length_lookup_2.
  - rewrite length_seqZ. lia.
  - intros j r v [-> Hj]%lookup_seqZ Hv.
    rewrite (local_n_entries_reads s h values (0 + Z.of_nat j) v); try done.
    + lia.
    + by rewrite Z.add_0_l, Nat2Z.id.
Qed.

(** What the all-gather hands back in a group whose members bring
    [values]. *)
Lemma gathered_in_group values rank v :
  values !! rank = Some v →
  gathered (group_comm (length values) rank) v (group_peers values) = values.
Proof.
  intros Hv. unfold gathered. cbn.
  apply list_eq_same_length with (length values).
  - done.
  - by rewrite length_fmap, length_seqZ, Nat2Z.id.
  - intros j x y Hj. rewrite list_lookup_fmap, lookup_seqZ_lt by lia. cbn.
    intros [= <-] Hy. rewrite Z.add_0_l.
    case_bool_decide as Heq.
    + apply Nat2Z.inj in Heq. subst j. congruence.
    + unfold group_peers. rewrite Nat2Z.id, Hy. reflexivity.
Qed.

(** One member of a group whose members all have an arena. *)
Lemma member_Init members rank member :
  Forall (λ m, global_m_file_ m.1 = true) members →
  members !! rank = Some member →
  contribution (Init_process (length members) rank member)
  = Some (Table.n_entries (loaded member))
  ∧ ∃ s,
      (exec (group_peers (group_values members)) []
            (Init_process (length members) rank member)).1
      = Finished (tt, s)
      ∧ Init_post DistributedTable member.1 member.2
                  (group_comm (length members) rank)
                  (group_values members) s.
Proof.
  intros Harena Hm.
  assert (global_m_file_ member.1 = true) as Ha
    by (by eapply (proj1 (Forall_lookup _ _) Harena)).
  unfold Init_process.
  destruct (Init_with_arena DistributedTable member.1 member.2
              (group_comm (length members) rank) Ha) as (k & -> & Hk).
  split; [reflexivity|].
  assert (group_values members !! rank = Some (Table.n_entries (loaded member)))
    as Hv by (unfold group_values; by rewrite list_lookup_fmap, Hm).
  assert (length (group_values members) = length members) as Hlen
    by (unfold group_values; by rewrite length_fmap).
  destruct (Hk (group_values members)) as (s & Hs & Hpost).
  { cbn. by rewrite Nat2Z.id. }
  exists s. split; [|exact Hpost].
  cbn. unfold loaded in Hv. rewrite <- Hlen at 1.
  rewrite (gathered_in_group _ _ _ Hv), Hs. reflexivity.
Qed.

Lemma group_states_lookup members rank s :
  Forall (λ m, global_m_file_ m.1 = true) members →
  group_states members !! rank = Some s →
  ∃ member,
    members !! rank = Some member
    ∧ (exec (group_peers (group_values members)) []
            (Init_process (length members) rank member)).1
      = Finished (tt, s)
    ∧ Init_post DistributedTable member.1 member.2
                (group_comm (length members) rank) (group_values members) s.
Proof.
  intros Harena. unfold group_states. rewrite list_lookup_imap.
  destruct (members !! rank) as [member|] eqn:Hm; [|discriminate].
  rewrite fmap_Some. intros (member' & [= <-] & ->). exists member.
  destruct (member_Init members rank member Harena Hm)
    as (_ & s & Hs & Hpost).
  rewrite Hs. cbn. done.
Qed.

(** C7. After the all-gather of [Init], in every group of processes that
    have an arena and whatever the sizes of their partitions (one process
    alone, or one process owning every point, included), every member has
    finished [Init], its own table holds the partition it loaded, and the
    entry counts it reports for the ranks of the group, [local_n_entries(r)]
    for r from 0 to size-1, add up to the number of points loaded over all
    the partitions. *)
Theorem entry_counts_sum_to_total (members : list (World * string)) :
  Forall (λ m, global_m_file_ m.1 = true) members →
  Init_group members
  = Some ((λ s, Finished (tt, s)) <$> group_states members)
  ∧ Forall2 (λ member s,
               local_n_entries_own s
               = Return (Table.n_entries (loaded member), s))
            members (group_states members)
  ∧ Forall (λ s, ∃ counts,
                entry_counts (length members) s = Some counts
                ∧ sum_list counts = total_points members)
           (group_states members).
Proof.
  intros Harena. split_and!.
  - unfold Init_group.
    assert (mapM contribution (imap (Init_process (length members)) members)
            = Some (group_values members)) as ->.
    { apply mapM_Some_2, Forall2_same_length_lookup_2.
      - unfold group_values. by rewrite length_imap, length_fmap.
      - intros i p v. rewrite list_lookup_imap. unfold group_values.
        rewrite list_lookup_fmap.
        rewrite !fmap_Some. intros (m1 & Hm1 & ->) (m2 & Hm2 & ->).
        assert (m2 = m1) as -> by congruence.
        by destruct (member_Init members i m1 Harena Hm1) as [-> _]. }
    cbn. f_equal. unfold group_states. rewrite !fmap_imap.
    apply imap_ext. intros i member Hm. unfold compose.
    destruct (member_Init members i member Harena Hm)
      as (_ & s & Hs & _).
    rewrite Hs. reflexivity.
  - apply Forall2_same_length_lookup_2.
    + unfold group_states. by rewrite length_imap.
    + intros i member s Hm Hs.
      destruct (group_states_lookup members i s Harena Hs)
        as (member' & Hm' & _ & Hpost).
      assert (member' = member) as -> by congruence.
      destruct Hpost as [_ _ _ (h & Hp & Hd) _ _ _ _ _].
      by apply (local_n_entries_own_reads s h).
  - apply Forall_lookup. intros i s Hs.
    destruct (group_states_lookup members i s Harena Hs)
      as (member & Hm & _ & Hpost).
    exists (group_values members). split; [|reflexivity].
    eapply entry_counts_after_Init; [exact Hpost|].
    unfold group_values. by rewrite length_fmap.
Qed.

Lemma entry_counts_sum_to_total_witness :
  Forall (λ m, global_m_file_ m.1 = true) example_members
  ∧ Init_group example_members
    = Some ((λ s, Finished (tt, s)) <$> group_states example_members)
  ∧ Forall (λ s, ∃ counts,
                entry_counts 4 s = Some counts ∧ sum_list counts = 40)
           (group_states example_members).
Proof.
  assert (Forall (λ m, global_m_file_ m.1 = true) example_members) as Harena
    by (repeat constructor).
  split; [exact Harena|].
  destruct (entry_counts_sum_to_total example_members Harena)
    as (Hgroup & _ & Hsum).
  split; [exact Hgroup|exact Hsum].
Defined.

(** A process alone, and three processes of which the first owns all. *)
Example entry_counts_of_a_single_process :
  entry_counts 1 <$> group_states [(example_world 10, "points.csv"%string)]
  = [Some [10]].
Proof. vm_compute. reflexivity. Qed.

Example entry_counts_when_one_process_owns_all :
  entry_counts 3
    <$> group_states [(example_world 30, "points.csv"%string);
                      (example_world 0, "points.csv"%string);
                      (example_world 0, "points.csv"%string)]
  = [Some [30; 0; 0]; Some [30; 0; 0]; Some [30; 0; 0]].
Proof. vm_compute. reflexivity. Qed.

(** * Further properties of the class *)

(** ** Invariants of the methods *)

Lemma always_bind {A B : Type} (Q : B → Prop) (p : proc A) (f : A → proc B) :
  always (λ a, always Q (f a)) p → always Q (proc_bind p f).
Proof. induction p; cbn; eauto. Qed.

Lemma always_impl {A : Type} (Q Q' : A → Prop) (p : proc A) :
  (∀ a, Q a → Q' a) → always Q p → always Q' p.
Proof. intros HQ. induction p; cbn; eauto. Qed.

Lemma always_finished {A : Type} (Q : A → Prop) (p : proc A) peers pending
    a tr :
  always Q p → exec peers pending p = (Finished a, tr) → Q a.
Proof.
  revert pending tr. induction p as [a'|e|c d t m k IH|c src t k IH|c v k IH];
    intros pending tr; cbn.
  - intros HQ [= <- _]. exact HQ.
  - intros _ [=].
  - intros HQ. destruct (exec peers pending k) as [o tr'] eqn:E.
    intros [= -> _]. by eapply IH.
  - intros HQ. destruct (take_matching c src t pending) as [[v rest]|];
      [|intros [=]].
    destruct (exec peers rest (k v)) as [o tr'] eqn:E.
    intros [= -> _]. by eapply IH.
  - intros HQ.
    destruct (exec peers pending (k (gathered c v peers))) as [o tr'] eqn:E.
    intros [= -> _]. by eapply IH.
Qed.

Section keeps.
Context (I : state → Prop).

Lemma keeps_bind {A B : Type} (m : M state A) (f : A → M state B) :
  keeps I m → (∀ a, keeps I (f a)) → keeps I (bind m f).
Proof.
  intros Hm Hf s Hs. unfold bind. apply always_bind.
  eapply always_impl; [|exact (Hm s Hs)].
  intros [a s1] H1. exact (Hf a s1 H1).
Qed.

Lemma keeps_ret {A : Type} (a : A) : keeps I (ret a).
Proof. intros s Hs. exact Hs. Qed.

Lemma keeps_fail {A : Type} e : keeps I (fail (A := A) e).
Proof. intros s Hs. exact Logic.I. Qed.

Lemma keeps_lift_result {A : Type} (r : result A) : keeps I (lift_result r).
Proof. destruct r; [apply keeps_ret|apply keeps_fail]. Qed.

Lemma keeps_member {A : Type} (f : t → A) : keeps I (member f).
Proof. intros s Hs. exact Hs. Qed.

Lemma keeps_inspect {A : Type} (f : World → A) : keeps I (inspect f).
Proof. intros s Hs. exact Hs. Qed.

Lemma keeps_send c dest tag msg : keeps I (send c dest tag msg).
Proof. intros s Hs. exact Hs. Qed.

Lemma keeps_recv c source tag : keeps I (recv c source tag).
Proof. intros s Hs v. exact Hs. Qed.

Lemma keeps_all_gather c v : keeps I (all_gather c v).
Proof. intros s Hs values. exact Hs. Qed.
End keeps.

(** Nothing that works on the world alone, and no assignment to another
    member, gives the table a tree. *)
Lemma keeps_unindexed_update (f : World → World) : keeps unindexed (update f).
Proof. intros s Hs. exact Hs. Qed.

Lemma keeps_unindexed_on_world {A : Type} (m : M World A) :
  keeps unindexed (on_world m).
Proof.
  intros s Hs. unfold on_world. apply always_bind.
  induction (m (world s)); cbn; eauto.
Qed.

Lemma keeps_unindexed_assign (f : t → t) :
  (∀ self, global_tree_ (f self) = global_tree_ self) →
  keeps unindexed (assign f).
Proof. intros Hf s Hs. unfold unindexed in *. cbn. by rewrite Hf. Qed.

Ltac keeps_unindexed :=
  repeat first
    [ apply keeps_ret
    | apply keeps_fail
    | apply keeps_lift_result
    | apply keeps_member
    | apply keeps_inspect
    | apply keeps_send
    | apply keeps_recv
    | apply keeps_all_gather
    | apply keeps_unindexed_update
    | apply keeps_unindexed_on_world
    | apply keeps_unindexed_assign; intros []; reflexivity
    | apply keeps_bind; [|intros ?]
    | match goal with
      | |- keeps _ (match ?x with _ => _ end) => destruct x
      | |- keeps _ (if ?b then _ else _) => destruct b
      | |- keeps _ (let '(_, _) := ?x in _) => destruct x
      end ].

Lemma Init_keeps_unindexed f c : keeps unindexed (Init f c).
Proof.
  unfold Init, construct, attempt, deref_table, deref_inbox, deref_int_array,
    n_attributes, local_n_entries_own, write_values.
  keeps_unindexed.
Qed.

(** An allocation, cell by cell. *)
Lemma allocate_cells by_ o w h w' :
  allocate by_ o w = (h, w') →
  memory w !! h = None
  ∧ memory w' = <[h := cell_of by_ o]> (memory w)
  ∧ mem_events w' = mem_events w ++ [Allocated by_ (kind_of o) h].
Proof.
  intros E.
  assert (h = (allocate by_ o w).1) as -> by (by rewrite E).
  assert (w' = (allocate by_ o w).2) as -> by (by rewrite E).
  split_and!; [apply allocate_fresh|reflexivity..].
Qed.

Lemma deref_cell h w o :
  deref (Some h) w = Ok (h, o) →
  ∃ by_, memory w !! h = Some (cell_of by_ o).
Proof.
  unfold deref. destruct (memory w !! h) as [[a o']|]; [|discriminate].
  intros [= <-]. by exists a.
Qed.

Lemma store_cells h o w :
  memory (store h o w)
  = alter (λ c, cell_of (cell_allocator c) o) h (memory w)
  ∧ mem_events (store h o w) = mem_events w.
Proof. split; reflexivity. Qed.

Ltac fresh_cell_full h w' :=
  match goal with
  | |- context [allocate ?a ?o ?w] =>
      let E := fresh "E" in
      destruct (allocate a o w) as [h w'] eqn:E;
      pose proof (allocate_cells _ _ _ _ _ E) as (? & ? & ?);
      apply allocate_inv in E as (? & ? & ? & ? & ?)
  end.

Ltac stored_full w' :=
  match goal with
  | D : deref (Some ?h) ?w = Ok (?h, ?o0) |- context [store ?h ?o ?w] =>
      let S := fresh "S" in
      pose proof (store_cells h o w) as (? & ?);
      pose proof (store_inv w h o o0 D) as S;
      set (w' := store h o w) in *;
      destruct S as (? & ? & ? & ? & ?)
  end.

Lemma Init_with_arena_layout t0 w f c :
  global_m_file_ w = true →
  ∃ k, Init f c {| this := t0; world := w |}
       = AllGather c (Table.n_entries (partition_files w f)) k
     ∧ ∀ values, length values = Z.to_nat (comm_size c) →
         ∃ s h1 h2 h3 h4,
           k values = Return (tt, s)
           ∧ Init_layout t0 w f c values s h1 h2 h3 h4.
Proof.
  intros Hm. unfold_methods. known.
  fresh_cell_full h1 w1. known.
  stored_full w2. carry. known.
  fresh_cell_full h3 w3. carry. known.
  fresh_cell_full h4 w4. carry. known.
  stored_full w5. carry. known.
  fresh_cell_full h6 w6. carry. known.
  eexists. split; [reflexivity|].
  intros values Hlen. cbn. known.
  rewrite bool_decide_true by (rewrite length_replicate; lia).
  rewrite drop_ge, app_nil_r by (rewrite length_replicate; lia).
  stored_full w7. carry.
  exists {| this := set_local_n_entries_ (Some h6)
            (set_table_outbox_group_comm_size_ (comm_size c)
               (set_table_inbox_ (Some h4)
                  (set_table_outbox_ (Some h3)
                     (set_owned_table_ (Some h1) t0))));
        world := w7 |}, h1, h3, h4, h6.
  split; [reflexivity|].
  repeat match goal with
         | H : memory ?a = _, H' : context [memory ?a] |- _ =>
             tryif constr_eq H H' then fail else rewrite H in H'
         | H : mem_events ?a = _, H' : context [mem_events ?a] |- _ =>
             tryif constr_eq H H' then fail else rewrite H in H'
         end.
  repeat match goal with
         | H : _ !! _ = None |- _ =>
             first [ apply lookup_insert_None in H as [? ?]
                   | rewrite lookup_alter_None in H ]
         end.
  split; cbn.
  - reflexivity.
  - repeat constructor; done.
  - repeat (apply NoDup_cons_2;
              [rewrite ?elem_of_cons, ?elem_of_nil; intuition congruence|]).
    apply NoDup_nil_2.
  - repeat match goal with
           | H : memory ?a = _ |- context [memory ?a] => rewrite H
           end.
    rewrite !alter_insert_eq. reflexivity.
  - repeat match goal with
           | H : mem_events ?a = _ |- context [mem_events ?a] => rewrite H
           end.
    rewrite <- !app_assoc. reflexivity.
  - congruence.
  - congruence.
  - congruence.
Qed.

Lemma Init_finished_layout t0 w f c peers pending s tr :
  exec peers pending (Init f c {| this := t0; world := w |})
  = (Finished (tt, s), tr) →
  global_m_file_ w = true
  ∧ tr = [Gathered c (Table.n_entries (partition_files w f))
                   (gathered c (Table.n_entries (partition_files w f)) peers)]
  ∧ ∃ h1 h2 h3 h4,
      Init_layout t0 w f c
        (gathered c (Table.n_entries (partition_files w f)) peers)
        s h1 h2 h3 h4.
Proof.
  destruct (global_m_file_ w) eqn:Hm.
  - destruct (Init_with_arena_layout t0 w f c Hm) as (k & -> & Hk).
    destruct (Hk _ (length_gathered c (Table.n_entries (partition_files w f))
                                     peers))
      as (s1 & h1 & h2 & h3 & h4 & Hs1 & Hlayout).
    cbn. rewrite Hs1. cbn. intros [= <- <-].
    split_and!; [done..|]. by exists h1, h2, h3, h4.
  - rewrite Init_without_arena by done. discriminate.
Qed.

Lemma release_cell by_ k h w o :
  memory w !! h = Some (cell_of by_ o) → kind_of o = k →
  release by_ k h w
  = Ok (with_memory (delete h (memory w))
                    (mem_events w ++ [Released by_ k h]) w).
Proof.
  intros Hh Hk. unfold release. rewrite Hh. cbn.
  rewrite bool_decide_true by done. reflexivity.
Qed.

Lemma NoDup_4 {A : Type} (a b c d : A) :
  NoDup [a; b; c; d] → a ≠ b ∧ a ≠ c ∧ a ≠ d ∧ b ≠ c ∧ b ≠ d ∧ c ≠ d.
Proof.
  rewrite !NoDup_cons, !elem_of_cons, !elem_of_nil. intuition congruence.
Qed.

(** Tearing down what [Init] built. *)
Lemma destructor_after_Init t0 w f c values s h1 h2 h3 h4 :
  Init_layout t0 w f c values s h1 h2 h3 h4 →
  global_tree_ t0 = None →
  destructor s
  = Return (tt, {| this := {| table_inbox_ := None;
                              table_outbox_ := None;
                              owned_table_ := None;
                              local_n_entries_ := None;
                              global_tree_ := None;
                              global_tree_leaf_nodes_ :=
                                global_tree_leaf_nodes_ t0;
                              table_outbox_group_comm_size_ := comm_size c |};
                   world := with_memory (memory w)
                              (mem_events (world s)
                               ++ [Released Arena KOutbox h2;
                                   Released Arena KInbox h3;
                                   Released Arena KIntArray h4;
                                   Released Arena KTable h1])
                              (world s) |}).
Proof.
  intros [Hthis Hfresh Hdistinct Hmem Hev Harena _ _] Htree.
  destruct s as [self ws]. cbn in *. subst self.
  apply NoDup_4 in Hdistinct as (? & ? & ? & ? & ? & ?).
  rewrite !Forall_cons in Hfresh. destruct Hfresh as (? & ? & ? & ? & _).
  unfold destructor, destructor_blocks, run_blocks, destroy_table_outbox,
    destroy_table_inbox, destroy_local_n_entries, destroy_owned_table,
    destroy_global_tree, attempt, bind, inspect, update, member, assign,
    lift_result, ret, fail, MemoryMappedFile.DestroyPtr,
    MemoryMappedFile.Deallocate.
  cbn; repeat (rewrite Harena; cbn).
  erewrite release_cell; [|rewrite Hmem; by simplify_map_eq|reflexivity].
  cbn; repeat (rewrite Harena; cbn).
  erewrite release_cell; [|cbn; rewrite Hmem; by simplify_map_eq|reflexivity].
  cbn; repeat (rewrite Harena; cbn).
  erewrite release_cell; [|cbn; rewrite Hmem; by simplify_map_eq|reflexivity].
  cbn; repeat (rewrite Harena; cbn).
  erewrite release_cell; [|cbn; rewrite Hmem; by simplify_map_eq|reflexivity].
  cbn. rewrite Htree. cbn.
  do 3 f_equal. unfold with_memory. cbn. f_equal.
  - rewrite Hmem. apply map_eq. intros i.
    destruct (decide (i = h1)), (decide (i = h2)), (decide (i = h3)),
      (decide (i = h4)); by simplify_map_eq.
  - rewrite <- !app_assoc. reflexivity.
Qed.

(** ** Programs of calls *)

Lemma exec_bind_finished {A B : Type} (p : proc A) (f : A → proc B)
    peers pending b tr :
  exec peers pending (proc_bind p f) = (Finished b, tr) →
  ∃ a pending' tr1 tr2,
    exec peers pending p = (Finished a, tr1)
    ∧ exec peers pending' (f a) = (Finished b, tr2)
    ∧ tr = tr1 ++ tr2.
Proof.
  revert pending tr.
  induction p as [a|e|c d t m k IH|c src t k IH|c v k IH];
    intros pending tr; cbn.
  - intros H. by exists a, pending, [], tr.
  - intros [=].
  - destruct (exec peers pending (proc_bind k f)) as [o tr'] eqn:E.
    intros [= -> <-].
    destruct (IH _ _ E) as (a & pending' & tr1 & tr2 & -> & H2 & ->).
    by exists a, pending', (Sent c d t m :: tr1), tr2.
  - destruct (take_matching c src t pending) as [[v rest]|]; [|intros [=]].
    destruct (exec peers rest (proc_bind (k v) f)) as [o tr'] eqn:E.
    intros [= -> <-].
    destruct (IH _ _ _ E) as (a & pending' & tr1 & tr2 & -> & H2 & ->).
    by exists a, pending', (Received c src t v :: tr1), tr2.
  - destruct (exec peers pending (proc_bind (k (gathered c v peers)) f))
      as [o tr'] eqn:E.
    intros [= -> <-].
    destruct (IH _ _ _ E) as (a & pending' & tr1 & tr2 & -> & H2 & ->).
    by exists a, pending', (Gathered c v (gathered c v peers) :: tr1), tr2.
Qed.

Lemma perform_keeps_unindexed env c : keeps unindexed (perform env c).
Proof.
  destruct c; cbn [perform];
    unfold Init, Save, IndexData, get, n_attributes, local_n_entries,
      local_n_entries_own, UnlockPointinTableInbox, RunInbox, RunOutbox,
      PrintTree, construct, attempt, deref_table, deref_inbox, deref_outbox,
      deref_tree, deref_int_array, write_values;
    keeps_unindexed.
Qed.

Lemma perform_all_keeps_unindexed env calls :
  keeps unindexed (perform_all env calls).
Proof.
  induction calls as [|c rest IH]; cbn [perform_all].
  - apply keeps_ret.
  - apply keeps_bind; [apply perform_keeps_unindexed|intros _; exact IH].
Qed.

Lemma PrintTree_unindexed tree_Print s :
  unindexed s → PrintTree tree_Print s = Crash NullDereference.
Proof.
  unfold unindexed, PrintTree, deref_tree, bind, member, inspect, lift_result.
  cbn. intros ->. reflexivity.
Qed.

Lemma finished_without_PrintTree env calls s0 peers pending s tr :
  unindexed s0 →
  exec peers pending (perform_all env calls s0) = (Finished (tt, s), tr) →
  Call_PrintTree ∉ calls.
Proof.
  revert s0 pending tr. induction calls as [|c rest IH];
    intros s0 pending tr Hs0; cbn [perform_all].
  - intros _. apply not_elem_of_nil.
  - unfold bind. intros Hrun.
    apply exec_bind_finished in Hrun
      as ([[] s1] & pending' & tr1 & tr2 & H1 & H2 & ->).
    rewrite not_elem_of_cons. split.
    + intros <-. cbn [perform] in H1.
      rewrite PrintTree_unindexed in H1 by done. discriminate.
    + eapply (IH s1); [|exact H2].
      exact (always_finished _ _ _ _ _ _
               (perform_keeps_unindexed env c s0 Hs0) H1).
Qed.

(** X11. No program of calls of the public member functions gives the
    table a tree, whatever the mailboxes and the tree collaborator do: in
    every state reached from a constructed table [IsIndexed()] is false and
    [get_tree()] is null, [PrintTree] is a null dereference there, and so
    no program that finishes contains a call of [PrintTree]. *)
Theorem no_call_gives_the_table_a_tree
    (env : collaborators) (calls : list call) (w : World)
    (peers : Z → Z) (pending : list envelope) (s : state)
    (tr : list io_event) :
  exec peers pending (perform_all env calls (constructed w))
  = (Finished (tt, s), tr) →
  IsIndexed (this s) = false
  ∧ get_tree (this s) = None
  ∧ PrintTree (tree_Print env) s = Crash NullDereference
  ∧ Call_PrintTree ∉ calls.
Proof.
  intros Hrun.
  assert (unindexed s) as Hs.
  { exact (always_finished _ _ _ _ _ _
             (perform_all_keeps_unindexed env calls (constructed w) eq_refl)
             Hrun). }
  split_and!.
  - unfold IsIndexed. rewrite Hs. reflexivity.
  - exact Hs.
  - by apply PrintTree_unindexed.
  - by eapply (finished_without_PrintTree env calls (constructed w)).
Qed.

Lemma no_call_gives_the_table_a_tree_witness :
  IsIndexed (this example_table) = false
  ∧ get_tree (this example_table) = None
  ∧ PrintTree (tree_Print idle) example_table = Crash NullDereference
  ∧ Call_PrintTree ∉ example_calls.
Proof.
  apply (no_call_gives_the_table_a_tree idle example_calls (example_world 10)
           (λ _, 10) [] example_table example_Init_trace).
  vm_compute. reflexivity.
Defined.

(** [Init] is its three blocks in a row, in every state. *)
Lemma Init_by_blocks file_name c s :
  Init file_name c s = Init_blocks file_name c s.
Proof.
  destruct s as [t0 w].
  unfold Init_blocks, Init_owned_table, Init_table_outbox,
    Init_inbox_and_counts.
  unfold_methods.
  destruct (global_m_file_ w) eqn:Hm; known;
    fresh_cell h1 w1; known; reflexivity.
Qed.

(** X1. Without an arena [Init] stops on the null [global_m_file_] when it
    constructs the outbox.  [Init] is its blocks in a row; the first one
    runs to its end: the owned table is built with [new], at an address of
    the process heap that was free, and holds the partition of the file;
    the next statement, the construction of the outbox through the arena,
    is the null dereference.  So [Init] stops before the all-gather,
    having used no communicator. *)
Theorem Init_without_arena_stops_at_the_outbox
    (t0 : t) (w : World) (file_name : string) (c : communicator)
    (peers : Z → Z) (pending : list envelope) :
  global_m_file_ w = false →
  (∀ s, Init file_name c s = Init_blocks file_name c s)
  ∧ ∃ h s1,
      Init_owned_table file_name {| this := t0; world := w |}
      = Return (tt, s1)
      ∧ this s1 = set_owned_table_ (Some h) t0
      ∧ ¬ alive w h
      ∧ memory (world s1)
        = <[h := cell_of ProcessHeap
                   (ObjTable (partition_files w file_name))]> (memory w)
      ∧ events_since {| this := t0; world := w |} s1
        = [Allocated ProcessHeap KTable h]
      ∧ Init_table_outbox s1 = Crash NullDereference
      ∧ exec peers pending (Init file_name c {| this := t0; world := w |})
        = (Crashed NullDereference, []).
Proof.
  intros Hm. split; [apply Init_by_blocks|].
  assert (exec peers pending (Init file_name c {| this := t0; world := w |})
          = (Crashed NullDereference, [])) as Hexec
    by (by rewrite Init_without_arena).
  revert Hexec. generalize (Init file_name c {| this := t0; world := w |}).
  intros p Hexec.
  unfold Init_owned_table, Init_table_outbox. unfold_methods. known.
  fresh_cell_full h1 w1. known.
  stored_full w2.
  exists h1, {| this := set_owned_table_ (Some h1) t0; world := w2 |}.
  split_and!.
  - reflexivity.
  - reflexivity.
  - unfold alive. intros [x Hx]. congruence.
  - cbn.
    repeat match goal with
           | H : memory ?a = _ |- context [memory ?a] => rewrite H
           end.
    rewrite alter_insert_eq. reflexivity.
  - unfold events_since. cbn.
    repeat match goal with
           | H : mem_events ?a = _ |- context [mem_events ?a] => rewrite H
           end.
    by rewrite drop_app_length.
  - known. reflexivity.
  - exact Hexec.
Qed.

Lemma Init_without_arena_stops_at_the_outbox_witness :
  ∃ h s1,
    Init_owned_table "points.csv" (constructed example_world_without_arena)
    = Return (tt, s1)
    ∧ this s1 = set_owned_table_ (Some h) DistributedTable.DistributedTable
    ∧ ¬ alive example_world_without_arena h
    ∧ memory (world s1)
      = <[h := cell_of ProcessHeap (ObjTable (example_partition 10))]>
          (memory example_world_without_arena)
    ∧ events_since (constructed example_world_without_arena) s1
      = [Allocated ProcessHeap KTable h]
    ∧ Init_table_outbox s1 = Crash NullDereference
    ∧ exec (λ _, 10) [] (Init "points.csv" (outbox_comm 2 4)
                              (constructed example_world_without_arena))
      = (Crashed NullDereference, []).
Proof.
  refine (proj2 (Init_without_arena_stops_at_the_outbox
                   DistributedTable.DistributedTable
                   example_world_without_arena "points.csv"
                   (outbox_comm 2 4) (λ _, 10) [] _)).
  reflexivity.
Defined.

(** X2. If one member of a group has no arena, the all-gather of [Init]
    completes for nobody: that member never reaches it. *)
Theorem Init_group_needs_every_arena
    (members : list (World * string)) (rank : nat) (member : World * string) :
  members !! rank = Some member →
  global_m_file_ member.1 = false →
  Init_group members = None.
Proof.
  intros Hm Harena. unfold Init_group.
  assert (mapM contribution (imap (Init_process (length members)) members)
          = None) as ->; [|reflexivity].
  apply mapM_None_2, Exists_exists.
  exists (Init_process (length members) rank member). split.
  - apply list_elem_of_lookup. exists rank.
    by rewrite list_lookup_imap, Hm.
  - unfold Init_process. by rewrite Init_without_arena.
Qed.

Lemma Init_group_needs_every_arena_witness :
  Init_group [(example_world 10, "points.csv"%string);
              (example_world_without_arena, "points.csv"%string);
              (example_world 10, "points.csv"%string)] = None.
Proof.
  apply (Init_group_needs_every_arena _ 1%nat
           (example_world_without_arena, "points.csv"%string)); reflexivity.
Defined.

Lemma alive_cell w h c : memory w !! h = Some c → alive w h.
Proof. intros H. unfold alive. by rewrite H. Qed.

(** X3. An [Init] that finishes has allocated exactly four objects, all in
    the arena and in this order: the owned table, the outbox, the inbox,
    the array of entry counts.  Their addresses are pairwise distinct, were
    not allocated before and are allocated now, and the four pointers of
    the table are set to them.  Nothing was released. *)
Theorem Init_allocates_table_outbox_inbox_counts
    (t0 : t) (w : World) (file_name : string) (c : communicator)
    (peers : Z → Z) (pending : list envelope) (s : state)
    (tr : list io_event) :
  exec peers pending (Init file_name c {| this := t0; world := w |})
  = (Finished (tt, s), tr) →
  ∃ h1 h2 h3 h4,
    events_since {| this := t0; world := w |} s
    = [Allocated Arena KTable h1; Allocated Arena KOutbox h2;
       Allocated Arena KInbox h3; Allocated Arena KIntArray h4]
    ∧ NoDup [h1; h2; h3; h4]
    ∧ Forall (λ h, ¬ alive w h ∧ alive (world s) h) [h1; h2; h3; h4]
    ∧ owned_table_ (this s) = Some h1
    ∧ table_outbox_ (this s) = Some h2
    ∧ table_inbox_ (this s) = Some h3
    ∧ local_n_entries_ (this s) = Some h4.
Proof.
  intros Hrun. apply Init_finished_layout in Hrun
    as (_ & _ & h1 & h2 & h3 & h4 & [Hthis Hfresh Hdistinct Hmem Hev _ _ _]).
  exists h1, h2, h3, h4.
  apply NoDup_4 in Hdistinct as Hne. destruct Hne as (? & ? & ? & ? & ? & ?).
  split_and!.
  - unfold events_since. cbn. by rewrite Hev, drop_app_length.
  - exact Hdistinct.
  - rewrite !Forall_cons in Hfresh. destruct Hfresh as (F1 & F2 & F3 & F4 & _).
    unfold alive. rewrite Hmem.
    repeat apply Forall_cons_2; [..|apply Forall_nil_2]; split;
      first [ by (intros [x Hx]; congruence)
            | by simplify_map_eq ].
  - by rewrite Hthis.
  - by rewrite Hthis.
  - by rewrite Hthis.
  - by rewrite Hthis.
Qed.

Lemma Init_allocates_table_outbox_inbox_counts_witness :
  ∃ h1 h2 h3 h4,
    events_since (constructed (example_world 10)) example_table
    = [Allocated Arena KTable h1; Allocated Arena KOutbox h2;
       Allocated Arena KInbox h3; Allocated Arena KIntArray h4]
    ∧ NoDup [h1; h2; h3; h4]
    ∧ Forall (λ h, ¬ alive (example_world 10) h
                   ∧ alive (world example_table) h) [h1; h2; h3; h4]
    ∧ owned_table_ (this example_table) = Some h1
    ∧ table_outbox_ (this example_table) = Some h2
    ∧ table_inbox_ (this example_table) = Some h3
    ∧ local_n_entries_ (this example_table) = Some h4.
Proof.
  apply (Init_allocates_table_outbox_inbox_counts
           DistributedTable.DistributedTable (example_world 10) "points.csv"
           (outbox_comm 2 4) (λ _, 10) [] example_table example_Init_trace).
  vm_compute. reflexivity.
Defined.

(** X4. [Init] does not release or reuse what was allocated before it:
    every cell of memory keeps its content, and none of the four pointers
    of the table refers to it afterwards.  Calling [Init] on a table that
    is already initialised therefore leaks the objects of the first call. *)
Theorem Init_leaves_what_was_allocated
    (t0 : t) (w : World) (file_name : string) (c : communicator)
    (peers : Z → Z) (pending : list envelope) (s : state)
    (tr : list io_event) (h : handle) (c0 : cell) :
  exec peers pending (Init file_name c {| this := t0; world := w |})
  = (Finished (tt, s), tr) →
  memory w !! h = Some c0 →
  memory (world s) !! h = Some c0
  ∧ owned_table_ (this s) ≠ Some h
  ∧ table_outbox_ (this s) ≠ Some h
  ∧ table_inbox_ (this s) ≠ Some h
  ∧ local_n_entries_ (this s) ≠ Some h.
Proof.
  intros Hrun Hh. apply Init_finished_layout in Hrun
    as (_ & _ & h1 & h2 & h3 & h4 & [Hthis Hfresh _ Hmem _ _ _ _]).
  rewrite !Forall_cons in Hfresh. destruct Hfresh as (F1 & F2 & F3 & F4 & _).
  assert (h ≠ h1 ∧ h ≠ h2 ∧ h ≠ h3 ∧ h ≠ h4) as (? & ? & ? & ?)
    by (split_and!; intros ->; congruence).
  rewrite Hthis, Hmem. cbn. split_and!; [by simplify_map_eq|congruence..].
Qed.

Lemma Init_leaves_what_was_allocated_witness :
  memory (world example_table_again) !! 1%positive
  = Some (cell_of Arena (ObjTable (example_partition 10)))
  ∧ owned_table_ (this example_table_again) ≠ Some 1%positive
  ∧ table_outbox_ (this example_table_again) ≠ Some 1%positive
  ∧ table_inbox_ (this example_table_again) ≠ Some 1%positive
  ∧ local_n_entries_ (this example_table_again) ≠ Some 1%positive.
Proof.
  apply (Init_leaves_what_was_allocated (this example_table)
           (world example_table) "points.csv" (outbox_comm 2 4)
           (λ _, 10) [] example_table_again example_Init_trace).
  - vm_compute. reflexivity.
  - vm_compute. reflexivity.
Defined.

(** X5. Tearing down a table right after its [Init]: the destructor runs
    to its end, releases the outbox, the inbox, the entry counts and the
    owned table, and memory is back to what it was before [Init]. *)
Theorem teardown_after_Init_restores_memory
    (w : World) (file_name : string) (c : communicator)
    (peers : Z → Z) (pending : list envelope) (s : state)
    (tr : list io_event) :
  exec peers pending (Init file_name c (constructed w))
  = (Finished (tt, s), tr) →
  ∃ s',
    destructor s = Return (tt, s')
    ∧ memory (world s') = memory w
    ∧ released_kinds (events_since s s')
      = [KOutbox; KInbox; KIntArray; KTable]
    ∧ released_kinds (events_since (constructed w) s) = [].
Proof.
  intros Hrun. apply Init_finished_layout in Hrun
    as (_ & _ & h1 & h2 & h3 & h4 & Hlayout).
  eexists. split; [|split_and!].
  - by eapply destructor_after_Init.
  - reflexivity.
  - unfold events_since. cbn. rewrite drop_app_length. reflexivity.
  - destruct Hlayout as [_ _ _ _ Hev _ _ _].
    unfold events_since. cbn. rewrite Hev, drop_app_length. reflexivity.
Qed.

Lemma teardown_after_Init_restores_memory_witness :
  ∃ s',
    destructor example_table = Return (tt, s')
    ∧ memory (world s') = memory (example_world 10)
    ∧ released_kinds (events_since example_table s')
      = [KOutbox; KInbox; KIntArray; KTable]
    ∧ released_kinds (events_since (constructed (example_world 10))
                                   example_table) = [].
Proof.
  apply (teardown_after_Init_restores_memory (example_world 10) "points.csv"
           (outbox_comm 2 4) (λ _, 10) [] example_table example_Init_trace).
  vm_compute. reflexivity.
Defined.

(** X6. The pointers being null after a teardown, running the blocks of
    the destructor again releases nothing and changes nothing. *)
Theorem destructor_twice_is_destructor_once (s s' : state) :
  destructor s = Return (tt, s') →
  destructor s' = Return (tt, s').
Proof.
  intros Hrun. pose proof (destructor_nulls s s' Hrun) as Hthis.
  destruct s' as [self w']. cbn in Hthis. subst self. reflexivity.
Qed.

Lemma destructor_twice_is_destructor_once_witness :
  destructor example_torn_down = Return (tt, example_torn_down).
Proof.
  apply (destructor_twice_is_destructor_once example_table).
  vm_compute. reflexivity.
Defined.

(** X7. The mailboxes are destroyed through [global_m_file_] without the
    test that guards the entry counts and the owned table: if the arena
    pointer is null while the outbox or the inbox is set, the destructor
    stops on a null dereference. *)
Theorem destructor_needs_the_arena_for_the_mailboxes (s : state) :
  global_m_file_ (world s) = false →
  table_outbox_ (this s) ≠ None ∨ table_inbox_ (this s) ≠ None →
  destructor s = Crash NullDereference.
Proof.
  intros Harena Hmail. destruct s as [self w]. cbn in *.
  unfold destructor, destructor_blocks, run_blocks, destroy_table_outbox,
    destroy_table_inbox, attempt, bind, inspect, update, member, assign,
    lift_result, ret, fail, MemoryMappedFile.DestroyPtr.
  cbn. destruct (table_outbox_ self) as [ho|] eqn:Ho; cbn.
  - rewrite Harena. reflexivity.
  - destruct (table_inbox_ self) as [hi|] eqn:Hi; cbn.
    + rewrite Harena. reflexivity.
    + destruct Hmail; congruence.
Qed.

Lemma destructor_needs_the_arena_for_the_mailboxes_witness :
  destructor (without_arena example_table) = Crash NullDereference.
Proof.
  apply destructor_needs_the_arena_for_the_mailboxes.
  - reflexivity.
  - left. vm_compute. discriminate.
Defined.

Lemma lookup_gathered c v peers rank :
  0 ≤ rank < comm_size c →
  gathered c v peers !! Z.to_nat rank
  = Some (if bool_decide (rank = comm_rank c) then v else peers rank).
Proof.
  intros Hrank. unfold gathered.
  rewrite list_lookup_fmap, lookup_seqZ_lt by lia. cbn.
  by rewrite Z2Nat.id by lia.
Qed.

(** X8. [local_n_entries(rank)] on a table whose [Init] has finished: a
    rank at or above the size of the group is reported and answered by -1;
    a negative rank passes the test and reads before the array; any other
    rank gets what that rank brought to the all-gather, the count of the
    own partition at the own rank, and the state is unchanged. *)
Theorem local_n_entries_after_Init
    (t0 : t) (w : World) (file_name : string) (c : communicator)
    (peers : Z → Z) (pending : list envelope) (s : state)
    (tr : list io_event) (rank_in : Z) :
  exec peers pending (Init file_name c {| this := t0; world := w |})
  = (Finished (tt, s), tr) →
  local_n_entries rank_in s
  = if comm_size c <=? rank_in
    then Return (-1, {| this := this s;
                        world := print (InvalidRank rank_in (comm_size c))
                                       (world s) |})
    else if rank_in <? 0 then Crash OutOfBounds
    else Return (if bool_decide (rank_in = comm_rank c)
                 then Table.n_entries (partition_files w file_name)
                 else peers rank_in, s).
Proof.
  intros Hrun. apply Init_finished in Hrun.
  destruct Hrun as [_ Hsize (h & Hp & Hd) _ _ _ _ _ _].
  destruct (Z.leb_spec (comm_size c) rank_in) as [Hge|Hlt].
  - unfold_methods. cbn. rewrite Hsize.
    destruct (Z.leb_spec (comm_size c) rank_in); [reflexivity|lia].
  - destruct (Z.ltb_spec rank_in 0) as [Hneg|Hpos].
    + unfold_methods. cbn. rewrite Hsize.
      destruct (Z.leb_spec (comm_size c) rank_in); [lia|].
      cbn. rewrite Hp, Hd. cbn.
      destruct (Z.ltb_spec rank_in 0); [reflexivity|lia].
    + eapply (local_n_entries_reads s h); [exact Hp|exact Hd|..].
      * rewrite Hsize. lia.
      * apply lookup_gathered. lia.
Qed.

Lemma local_n_entries_after_Init_witness :
  local_n_entries 2 example_table = Return (10, example_table)
  ∧ local_n_entries (-1) example_table = Crash OutOfBounds.
Proof.
  assert (exec (λ _, 10) [] (Init "points.csv" (outbox_comm 2 4)
                                  (constructed (example_world 10)))
          = (Finished (tt, example_table), example_Init_trace)) as Hrun
    by (vm_compute; reflexivity).
  split.
  - exact (local_n_entries_after_Init _ _ _ _ _ _ _ _ 2 Hrun).
  - exact (local_n_entries_after_Init _ _ _ _ _ _ _ _ (-1) Hrun).
Defined.

(** X9. After [Init], on a process whose rank is within the group, the
    two overloads agree: [local_n_entries(own rank)] is [local_n_entries()]. *)
Theorem local_n_entries_of_own_rank_is_the_own_count
    (t0 : t) (w : World) (file_name : string) (c : communicator)
    (peers : Z → Z) (pending : list envelope) (s : state)
    (tr : list io_event) :
  exec peers pending (Init file_name c {| this := t0; world := w |})
  = (Finished (tt, s), tr) →
  0 ≤ comm_rank c < comm_size c →
  ∃ n, local_n_entries (comm_rank c) s = Return (n, s)
       ∧ local_n_entries_own s = Return (n, s).
Proof.
  intros Hrun Hrank. apply Init_finished in Hrun.
  destruct Hrun as [_ Hsize (h & Hp & Hd) (ht & Hpt & Hdt) _ _ _ _ _].
  exists (Table.n_entries (partition_files w file_name)). split.
  - eapply (local_n_entries_reads s h); [exact Hp|exact Hd|..].
    + by rewrite Hsize.
    + rewrite lookup_gathered by done. by rewrite bool_decide_true.
  - by apply (local_n_entries_own_reads s ht).
Qed.

Lemma local_n_entries_of_own_rank_is_the_own_count_witness :
  ∃ n, local_n_entries 2 example_table = Return (n, example_table)
       ∧ local_n_entries_own example_table = Return (n, example_table).
Proof.
  apply (local_n_entries_of_own_rank_is_the_own_count
           DistributedTable.DistributedTable (example_world 10) "points.csv"
           (outbox_comm 2 4) (λ _, 10) [] example_table example_Init_trace).
  - vm_compute. reflexivity.
  - cbn. lia.
Defined.

(** X10. Before [Init] the size of the group is the constructor's -1, so
    [local_n_entries(rank)] reports every rank from -1 up as invalid, with
    limit -1, and for a rank below -1 dereferences the null array. *)
Theorem local_n_entries_before_Init (w : World) (rank_in : Z) :
  local_n_entries rank_in (constructed w)
  = if -1 <=? rank_in
    then Return (-1, {| this := DistributedTable.DistributedTable;
                        world := print (InvalidRank rank_in (-1)) w |})
    else Crash NullDereference.
Proof.
  unfold_methods. cbn. destruct (-1 <=? rank_in); reflexivity.
Qed.

(** X13. [n_attributes()] and [local_n_entries()] delegate to the owned
    table without a null test: after [Init] they return the attribute
    count and the entry count of the partition loaded and leave the state
    as it is; on a table that was only constructed they are null
    dereferences. *)
Theorem table_queries_before_and_after_Init
    (t0 : t) (w : World) (file_name : string) (c : communicator)
    (peers : Z → Z) (pending : list envelope) (s : state)
    (tr : list io_event) :
  exec peers pending (Init file_name c {| this := t0; world := w |})
  = (Finished (tt, s), tr) →
  n_attributes s
  = Return (Table.n_attributes (partition_files w file_name), s)
  ∧ local_n_entries_own s
    = Return (Table.n_entries (partition_files w file_name), s)
  ∧ ∀ w', n_attributes (constructed w') = Crash NullDereference
          ∧ local_n_entries_own (constructed w') = Crash NullDereference.
Proof.
  intros Hrun. apply Init_finished in Hrun.
  destruct Hrun as [_ _ _ (ht & Hpt & Hdt) _ _ _ _ _].
  split_and!.
  - unfold_methods. cbn. rewrite Hpt, Hdt. cbn. destruct s. reflexivity.
  - by apply (local_n_entries_own_reads s ht).
  - intros w'. split; reflexivity.
Qed.

Lemma table_queries_before_and_after_Init_witness :
  n_attributes example_table = Return (3, example_table)
  ∧ local_n_entries_own example_table = Return (10, example_table).
Proof.
  destruct (table_queries_before_and_after_Init
              DistributedTable.DistributedTable (example_world 10)
              "points.csv" (outbox_comm 2 4) (λ _, 10) [] example_table
              example_Init_trace) as (Ha & Hn & _).
  - vm_compute. reflexivity.
  - split; [exact Ha|exact Hn].
Defined.

(** [get] only reads: it keeps every invariant of the state. *)
Lemma get_keeps (I : state → Prop) c_out c_in requested_rank point_id entry :
  keeps I (get c_out c_in requested_rank point_id entry).
Proof.
  unfold get, deref_table, deref_inbox, n_attributes.
  repeat first
    [ apply keeps_ret | apply keeps_fail | apply keeps_lift_result
    | apply keeps_member | apply keeps_inspect | apply keeps_send
    | apply keeps_recv
    | apply keeps_bind; [|intros ?]
    | match goal with
      | |- keeps _ (match ?x with _ => _ end) => destruct x
      | |- keeps _ (if ?b then _ else _) => destruct b
      end ].
Qed.

(** X12. [get] assigns no member and changes nothing in the world: when
    it returns, on either branch, the state is the one it was called in. *)
Theorem get_changes_nothing
    (c_out c_in : communicator) (requested_rank point_id : Z)
    (entry point : DenseConstPoint) (s s' : state)
    (peers : Z → Z) (pending : list envelope) (tr : list io_event) :
  exec peers pending (get c_out c_in requested_rank point_id entry s)
  = (Finished (point, s'), tr) →
  s' = s.
Proof.
  intros Hrun.
  exact (always_finished (λ r, r.2 = s) _ _ _ _ _
           (get_keeps (λ x, x = s) c_out c_in requested_rank point_id entry
                      s eq_refl) Hrun).
Qed.

Lemma get_changes_nothing_witness :
  let run := exec (λ _, 10) [acknowledgment 2]
                  (get (outbox_comm 2 4) (inbox_comm 2 4) 0 7 no_entry
                       example_table) in
  ∃ point s', run.1 = Finished (point, s') ∧ s' = example_table.
Proof.
  exists (Alias (InboxSlot 3%positive 0 7) 3), example_table.
  assert (exec (λ _, 10) [acknowledgment 2]
               (get (outbox_comm 2 4) (inbox_comm 2 4) 0 7 no_entry
                    example_table)
          = (Finished (Alias (InboxSlot 3%positive 0 7) 3, example_table),
             [example_request 7;
              Received (inbox_comm 2 4) 2 RECEIVE_POINT_FROM_TABLE_INBOX 0]))
    as Hrun by (vm_compute; reflexivity).
  split.
  - cbv zeta. rewrite Hrun. reflexivity.
  - exact (get_changes_nothing _ _ _ _ _ _ _ _ _ _ _ Hrun).
Defined.

(** X14. [get] on a table without owned table and inbox (before [Init]):
    for a point of the own rank it stops on the null owned table with no
    traffic; for a point of another rank the request is sent first, and
    the null inbox is only met after the acknowledgment has arrived. *)
Theorem get_before_Init
    (c_out c_in : communicator) (requested_rank point_id : Z)
    (entry : DenseConstPoint) (s : state)
    (peers : Z → Z) (pending : list envelope) :
  owned_table_ (this s) = None →
  table_inbox_ (this s) = None →
  exec peers pending (get c_out c_in requested_rank point_id entry s)
  = if bool_decide (comm_rank c_out = requested_rank)
    then (Crashed NullDereference, [])
    else
      let request :=
        Sent c_out requested_rank REQUEST_POINT_FROM_TABLE_OUTBOX
             {| source_rank_ := comm_rank c_out; point_id_ := point_id |} in
      match take_matching c_in (comm_rank c_out)
                          RECEIVE_POINT_FROM_TABLE_INBOX pending with
      | None =>
          (Blocked c_in (comm_rank c_out) RECEIVE_POINT_FROM_TABLE_INBOX,
           [request])
      | Some (v, _) =>
          (Crashed NullDereference,
           [request;
            Received c_in (comm_rank c_out) RECEIVE_POINT_FROM_TABLE_INBOX v])
      end.
Proof.
  intros Ht Hi. case_bool_decide as Hrank.
  - subst requested_rank. rewrite get_local. unfold_methods. cbn.
    rewrite Ht. reflexivity.
  - rewrite exec_get_remote by done. cbn.
    destruct (take_matching c_in (comm_rank c_out)
                            RECEIVE_POINT_FROM_TABLE_INBOX pending)
      as [[v rest]|]; [|reflexivity].
    assert (alias_staged requested_rank point_id s = Crash NullDereference)
      as ->; [|reflexivity].
    unfold alias_staged. unfold_methods. cbn. rewrite Hi. reflexivity.
Qed.

Lemma get_before_Init_witness :
  exec (λ _, 10) [acknowledgment 2]
       (get (outbox_comm 2 4) (inbox_comm 2 4) 0 7 no_entry
            (constructed (example_world 10)))
  = (Crashed NullDereference,
     [example_request 7;
      Received (inbox_comm 2 4) 2 RECEIVE_POINT_FROM_TABLE_INBOX 0]).
Proof.
  apply (get_before_Init (outbox_comm 2 4) (inbox_comm 2 4) 0 7 no_entry
           (constructed (example_world 10)) (λ _, 10) [acknowledgment 2]);
    reflexivity.
Defined.

(** ** Teardown of the tables a program can reach *)

(** A printed line does not change what a release does. *)
Lemma release_print by_ k h d w :
  release by_ k h (print d w)
  = match release by_ k h w with
    | Ok w' => Ok (print d w')
    | Fatal e => Fatal e
    end.
Proof.
  unfold release. cbn. destruct (memory w !! h) as [c|]; [|reflexivity].
  case_bool_decide; reflexivity.
Qed.

Ltac block_print :=
  intros Hrun;
  unfold destroy_table_outbox, destroy_table_inbox, destroy_local_n_entries,
    destroy_owned_table, destroy_global_tree, attempt, bind, inspect, update,
    member, assign, lift_result, ret, fail, MemoryMappedFile.DestroyPtr,
    MemoryMappedFile.Deallocate, delete_, printed in *;
  cbn in *;
  repeat match type of Hrun with
         | context [match ?p with Some _ => _ | None => _ end] =>
             destruct p; cbn in *
         | context [if global_m_file_ ?w then _ else _] =>
             destruct (global_m_file_ w); cbn in *
         end;
  rewrite ?release_print;
  repeat match type of Hrun with
         | context [release ?a ?k ?h ?w] =>
             destruct (release a k h w); cbn in *
         end;
  try discriminate; injection Hrun as <-; reflexivity.

Lemma destroy_table_outbox_printed d s s1 :
  destroy_table_outbox s = Return (tt, s1) →
  destroy_table_outbox (printed d s) = Return (tt, printed d s1).
Proof. block_print. Qed.

Lemma destroy_table_inbox_printed d s s1 :
  destroy_table_inbox s = Return (tt, s1) →
  destroy_table_inbox (printed d s) = Return (tt, printed d s1).
Proof. block_print. Qed.

Lemma destroy_local_n_entries_printed d s s1 :
  destroy_local_n_entries s = Return (tt, s1) →
  destroy_local_n_entries (printed d s) = Return (tt, printed d s1).
Proof. block_print. Qed.

Lemma destroy_owned_table_printed d s s1 :
  destroy_owned_table s = Return (tt, s1) →
  destroy_owned_table (printed d s) = Return (tt, printed d s1).
Proof. block_print. Qed.

Lemma destroy_global_tree_printed d s s1 :
  destroy_global_tree s = Return (tt, s1) →
  destroy_global_tree (printed d s) = Return (tt, printed d s1).
Proof. block_print. Qed.

Lemma destructor_printed d s s' :
  destructor s = Return (tt, s') →
  destructor (printed d s) = Return (tt, printed d s').
Proof.
  intros H. apply destructor_inv in H
    as (s1 & s2 & s3 & s4 & _ & _ & _ & _ & _ & R1 & R2 & R3 & R4 & R5).
  unfold destructor, destructor_blocks.
  rewrite (run_blocks_cons _ _ _ _ (destroy_table_outbox_printed d _ _ R1)),
    (run_blocks_cons _ _ _ _ (destroy_table_inbox_printed d _ _ R2)),
    (run_blocks_cons _ _ _ _ (destroy_local_n_entries_printed d _ _ R3)),
    (run_blocks_cons _ _ _ _ (destroy_owned_table_printed d _ _ R4)),
    (run_blocks_cons _ _ _ _ (destroy_global_tree_printed d _ _ R5)).
  reflexivity.
Qed.

Lemma destructible_printed d s : destructible s → destructible (printed d s).
Proof.
  intros [Hs (s' & Hrun)]. split; [exact Hs|].
  exists (printed d s'). by apply destructor_printed.
Qed.

Lemma keeps_destructible_print d :
  keeps destructible (update (print d)).
Proof. intros s Hs. cbn. by apply (destructible_printed d s). Qed.

Ltac keeps_reads :=
  repeat first
    [ apply keeps_ret | apply keeps_fail | apply keeps_lift_result
    | apply keeps_member | apply keeps_inspect | apply keeps_send
    | apply keeps_recv | apply keeps_destructible_print
    | apply keeps_bind; [|intros ?]
    | match goal with
      | |- keeps _ (match ?x with _ => _ end) => destruct x
      | |- keeps _ (if ?b then _ else _) => destruct b
      end ].

Lemma keeps_finished {A : Type} (I : state → Prop) (m : M state A) s0
    peers pending a s1 tr :
  keeps I m → I s0 →
  exec peers pending (m s0) = (Finished (a, s1), tr) → I s1.
Proof.
  intros Hm H0 Hrun.
  exact (always_finished (λ r, I r.2) _ _ _ _ _ (Hm s0 H0) Hrun).
Qed.

(** One call of the class's own code keeps the table destructible. *)
Lemma perform_keeps_destructible env c s0 peers pending s1 tr :
  calls_collaborator c = false →
  destructible s0 →
  exec peers pending (perform env c s0) = (Finished (tt, s1), tr) →
  destructible s1.
Proof.
  intros Hown [Hs0 Hd0].
  destruct c; try discriminate Hown; cbn [perform].
  - (* Init *)
    destruct s0 as [t0 w]. intros Hrun.
    apply Init_finished_layout in Hrun
      as (_ & _ & h1 & h2 & h3 & h4 & Hlayout).
    split.
    + unfold unindexed. destruct Hlayout as [-> _ _ _ _ _ _ _]. exact Hs0.
    + eexists. eapply destructor_after_Init; [exact Hlayout|exact Hs0].
  - intros [= <- _]. by split.
  - intros [= <- _]. by split.
  - apply keeps_finished; [|by split].
    apply keeps_bind; [apply get_keeps|intros ?; apply keeps_ret].
  - apply keeps_finished; [|by split].
    unfold n_attributes, deref_table; keeps_reads.
  - apply keeps_finished; [|by split].
    unfold local_n_entries, deref_int_array; keeps_reads.
  - apply keeps_finished; [|by split].
    unfold local_n_entries_own, deref_table; keeps_reads.
  - rewrite PrintTree_unindexed by done. discriminate.
Qed.

(** X15. A table that has only been driven through the member functions
    whose code is in this class (Init, Save, IndexData, get, n_attributes,
    both local_n_entries, PrintTree), in any number and order, can always
    be destroyed: in every state such a program ends in, the destructor
    runs to its end without a fault. *)
Theorem reachable_tables_can_be_destroyed
    (env : collaborators) (calls : list call) (w : World)
    (peers : Z → Z) (pending : list envelope) (s : state)
    (tr : list io_event) :
  Forall (λ c, calls_collaborator c = false) calls →
  exec peers pending (perform_all env calls (constructed w))
  = (Finished (tt, s), tr) →
  ∃ s', destructor s = Return (tt, s').
Proof.
  intros Hown Hrun.
  assert (destructible (constructed w)) as H0
    by (split; [reflexivity|by eexists]).
  revert H0 Hrun. generalize (constructed w). revert pending tr.
  induction Hown as [|c rest Hc _ IH]; intros pending tr s0 H0;
    cbn [perform_all].
  - intros [= <- _]. exact (proj2 H0).
  - unfold bind. intros Hrun.
    apply exec_bind_finished in Hrun
      as ([[] s1] & pending' & tr1 & tr2 & H1 & H2 & ->).
    eapply (IH pending' tr2 s1); [|exact H2].
    by eapply perform_keeps_destructible.
Qed.

Lemma reachable_tables_can_be_destroyed_witness :
  ∃ s', destructor example_table = Return (tt, s').
Proof.
  apply (reachable_tables_can_be_destroyed idle example_own_calls
           (example_world 10) (λ _, 10) [] example_table example_Init_trace).
  - repeat constructor.
  - vm_compute. reflexivity.
Defined.
